(** * The edlib aligner application (apps/aligner/aligner.cpp)

    A shallow embedding of the command line aligner: the paired-line
    reader [read_input], the driver [main], the FASTA reader
    [readFastaSequences] and the renderer [printAlignment], followed by
    the properties of each. *)

From Stdlib Require Import Ascii String.
From Stdlib Require Import ZArith List Bool Lia.
From Stdlib Require Import DecimalString.
Import ListNotations.

Local Open Scope Z_scope.
Local Open Scope list_scope.

(** ** Results of C++ computations

    A computation either finishes with a value, or runs into undefined
    behaviour (an out-of-bounds access, a null stream, a signed
    overflow), or is cut short by the fuel of a loop of the model. *)

Inductive result (A : Type) : Type :=
| Done (a : A)
| Undefined
| OutOfFuel.

Arguments Done {A} a.
Arguments Undefined {A}.
Arguments OutOfFuel {A}.

Definition bind {A B : Type} (c : result A) (k : A -> result B) : result B :=
  match c with
  | Done a => k a
  | Undefined => Undefined
  | OutOfFuel => OutOfFuel
  end.

Declare Scope result_scope.
Delimit Scope result_scope with result.
Notation "x <- c ;; k" := (bind c (fun x => k))
  (at level 61, c at next level, right associativity) : result_scope.
Notation "' p <- c ;; k" := (bind c (fun x => let p := x in k))
  (at level 61, p pattern, c at next level, right associativity) : result_scope.
Local Open Scope result_scope.

(** ** Bytes and C integers *)

Definition bytes := list ascii.

Definition LF : ascii := "010"%char.
Definition CR : ascii := "013"%char.
Definition GT : ascii := ">"%char.

Definition str (s : string) : bytes := list_ascii_of_string s.

Definition INT_MIN : Z := -2147483648.
Definition INT_MAX : Z := 2147483647.

Definition in_int (z : Z) : bool := (INT_MIN <=? z) && (z <=? INT_MAX).

(** Arithmetic on [int]: a signed overflow is undefined. *)
Definition int_add (a b : Z) : result Z :=
  if in_int (a + b) then Done (a + b) else Undefined.

Definition int_sub (a b : Z) : result Z :=
  if in_int (a - b) then Done (a - b) else Undefined.

(** Conversion of a wider integer to [int] keeps the low 32 bits. *)
Definition to_int (z : Z) : Z :=
  (z + 2147483648) mod 4294967296 - 2147483648.

(** [buf[i]]: reading outside of the buffer is undefined. *)
Definition index {A : Type} (buf : list A) (i : Z) : result A :=
  if i <? 0 then Undefined
  else match nth_error buf (Z.to_nat i) with
       | Some a => Done a
       | None => Undefined
       end.

(** ** Streams of <cstdio>

    A stream opened for reading is the bytes not yet read and its
    end-of-file indicator.  Read errors are not modelled. *)

Record FILE : Type := mkFILE { unread : bytes; at_eof : bool }.

Definition filesystem := bytes -> option bytes.

(** [fopen(path, "r")]: [None] is the null pointer. *)
Definition fopen (fs : filesystem) (path : bytes) : option FILE :=
  match fs path with
  | Some content => Some (mkFILE content false)
  | None => None
  end.

Definition feof (f : FILE) : bool := at_eof f.

(** The file system with one file. *)
Definition single_file (path content : bytes) : filesystem :=
  fun p => if list_eq_dec ascii_dec p path then Some content else None.

(** [fread(buffer, sizeof(char), n, file)]: the bytes stored in the
    buffer (their number is the return value) and the stream afterwards;
    the end-of-file indicator is set when fewer than [n] bytes were
    left. *)
Definition fread (n : nat) (f : FILE) : bytes * FILE :=
  (firstn n (unread f),
   mkFILE (skipn n (unread f))
          (at_eof f || (Nat.ltb (length (unread f)) n))).

(** * The FASTA reader *)

Module Fasta.

(** The local variables of [readFastaSequences] that the loop changes,
    with the vector [*seqs]. *)
Record parser : Type := mkParser {
  inHeader : bool;
  inSequence : bool;
  seqs : list bytes
}.

Definition buffSize : nat := 4096.

(** [seqs->back().push_back(c)]; [back()] of an empty vector is
    undefined. *)
Definition back_push_back (v : list bytes) (c : ascii) : result (list bytes) :=
  match rev v with
  | [] => Undefined
  | last :: front => Done (rev front ++ [last ++ [c]])
  end.

(** The body of the inner [for] loop, for the byte [c = buffer[i]]. *)
Definition step (c : ascii) (p : parser) : result parser :=
  if inHeader p then
    if (c =? LF)%char
    then Done (mkParser false (inSequence p) (seqs p))
    else Done p
  else if (c =? GT)%char then
    Done (mkParser true false (seqs p))
  else if (c =? CR)%char || (c =? LF)%char then
    Done p
  else
    let p1 :=
      if negb (inSequence p)
      then mkParser (inHeader p) true (seqs p ++ [[]])
      else p in
    v <- back_push_back (seqs p1) c ;;
    Done (mkParser (inHeader p1) (inSequence p1) v).

(** [for(int i = 0; i < read; ++i)] over the bytes that [fread] stored. *)
Fixpoint for_buffer (buffer : bytes) (p : parser) : result parser :=
  match buffer with
  | [] => Done p
  | c :: buffer' => p' <- step c p ;; for_buffer buffer' p'
  end.

(** [while(!feof(file))]. *)
Fixpoint while_not_feof (fuel : nat) (file : FILE) (p : parser) : result parser :=
  if feof file then Done p
  else match fuel with
       | O => OutOfFuel
       | S fuel' =>
           let (buffer, file') := fread buffSize file in
           p' <- for_buffer buffer p ;;
           while_not_feof fuel' file' p'
       end.

(** [readFastaSequences(path, seqs)]: the returned [int] and [*seqs]. *)
Definition readFastaSequences (fs : filesystem) (path : bytes)
  : result (Z * list bytes) :=
  match fopen fs path with
  | None => Done (1, [])
  | Some file =>
      p <- while_not_feof (S (length (unread file))) file
             (mkParser false false []) ;;
      Done (0, seqs p)
  end.

(** *** Vocabulary of the properties *)

(** A residue byte: neither the marker nor a line break. *)
Definition is_residue (c : ascii) : bool :=
  negb (c =? GT)%char && negb (c =? CR)%char && negb (c =? LF)%char.

Definition count_markers (s : bytes) : nat :=
  length (filter (fun c => (c =? GT)%char) s).

(** The bytes of a stream that lie outside of its header lines; a
    header runs from a marker to the next line feed. *)
Fixpoint outside_headers (in_header : bool) (s : bytes) : bytes :=
  match s with
  | [] => []
  | c :: s' =>
      if in_header then outside_headers (negb (c =? LF)%char) s'
      else if (c =? GT)%char then outside_headers true s'
      else c :: outside_headers false s'
  end.

(** A FASTA entry as it is written in a file: the marker, the header
    line and the lines of the sequence. *)
Record entry : Type := mkEntry { header : bytes; body : bytes }.

Definition entry_bytes (e : entry) : bytes :=
  GT :: header e ++ LF :: body e.

Definition well_formed (e : entry) : bool :=
  forallb (fun c => negb (c =? LF)%char && negb (c =? GT)%char) (header e)
  && forallb (fun c => negb (c =? GT)%char) (body e)
  && existsb is_residue (body e).

(** [back()] is only used on a vector that is not empty. *)
Definition consistent (p : parser) : Prop :=
  inSequence p = true -> seqs p <> [].

Definition residues_only (v : list bytes) : Prop :=
  Forall (fun r => Forall (fun c => is_residue c = true) r) v.

(** The bytes that a step adds to the records. *)
Definition kept (in_header : bool) (c : ascii) : bytes :=
  if in_header then [] else if is_residue c then [c] else [].

Definition next_header (in_header : bool) (c : ascii) : bool :=
  if in_header then negb (c =? LF)%char else (c =? GT)%char.

Definition residues (e : entry) : bytes := filter is_residue (body e).

Definition stream_of (es : list entry) : bytes := concat (map entry_bytes es).

(** Inputs of the examples. *)
Definition a_fa : bytes := str "a.fa".

Definition two_entries : list entry :=
  [ mkEntry (str "s1") (str "AC" ++ [CR; LF] ++ str "GT" ++ [LF]);
    mkEntry (str "s2") (str "TTG") ].

End Fasta.

(** * The paired-line reader *)

Module Reader.

(** The bytes of [s] up to and including its first line feed (all of
    [s] when it has none), and the bytes after them. *)
Fixpoint take_line (s : bytes) : bytes * bytes :=
  match s with
  | [] => ([], [])
  | c :: s' =>
      if (c =? LF)%char then ([c], s')
      else let (l, r) := take_line s' in (c :: l, r)
  end.

(** [getline(lineptr, n, stream)] with [*n == 0]: the returned
    [ssize_t], the line stored in a fresh buffer, with its delimiter when
    there is one, and the stream afterwards.  Nothing left to read gives
    -1. *)
Definition getline (stream : FILE) : Z * bytes * FILE :=
  match unread stream with
  | [] => (-1, [], mkFILE [] true)
  | _ :: _ =>
      let (l, r) := take_line (unread stream) in
      (Z.of_nat (length l), l,
       mkFILE r (at_eof stream || negb (existsb (Ascii.eqb LF) l)))
  end.

(** What a call of [read_input] that returns [true] has stored through
    its four pointers. *)
Record pair : Type := mkPair {
  line1 : bytes;
  line2 : bytes;
  line1_length : Z;
  line2_length : Z
}.

(** [read_input(input_file, &line1, &line2, &line1_length,
    &line2_length)]: [None] stands for the return value [false], after
    which the caller does not read the four variables.  A null
    [input_file] reaches [getline], which is undefined. *)
Definition read_input (input_file : option FILE) : result (option pair * FILE) :=
  match input_file with
  | None => Undefined
  | Some f =>
      let '(n1, l1, f1) := getline f in
      let len1 := to_int n1 in
      if len1 =? -1 then Done (None, f1)
      else
        let '(n2, l2, f2) := getline f1 in
        let len2 := to_int n2 in
        if len2 =? -1 then Done (None, f2)
        else Done (Some (mkPair l1 l2 len1 len2), f2)
  end.

(** The pairs that successive calls return until the first [false]. *)
Fixpoint read_all (fuel : nat) (f : FILE) : result (list pair) :=
  r <- read_input (Some f) ;;
  match r with
  | (None, _) => Done []
  | (Some p, f') =>
      match fuel with
      | O => OutOfFuel
      | S fuel' => ps <- read_all fuel' f' ;; Done (p :: ps)
      end
  end.

(** The calls of the loop [while(read_input(...))] on a stream. *)
Definition read_pairs (f : FILE) : result (list pair) :=
  read_all (length (unread f)) f.

(** *** Vocabulary of the properties *)

(** The lines of a text: each body followed by a line feed, and a last
    line without one when [last] is not empty. *)
Definition terminated (body : bytes) : bytes := body ++ [LF].

Definition text_lines (bodies : list bytes) (last : bytes) : list bytes :=
  map terminated bodies ++ (match last with [] => [] | _ => [last] end).

Definition text_bytes (bodies : list bytes) (last : bytes) : bytes :=
  concat (map terminated bodies) ++ last.

Definition no_line_feed (l : bytes) : bool :=
  forallb (fun c => negb (c =? LF)%char) l.

(** A line whose length is an [int]. *)
Definition fits (l : bytes) : Prop := Z.of_nat (length l) <= INT_MAX.

(** Lines taken two by two; a last line without a partner is left out. *)
Fixpoint pair_up (ls : list bytes) : list pair :=
  match ls with
  | l1 :: l2 :: ls' =>
      mkPair l1 l2 (Z.of_nat (length l1)) (Z.of_nat (length l2))
      :: pair_up ls'
  | _ => []
  end.

End Reader.

(** * The interface of the alignment engine *)

Module Edlib.

(** Modelled from the spec: edlib.h is not among the sources; the
    alignment mode is one of SHW, HW and NW. *)
Inductive EdlibAlignMode : Type :=
| EDLIB_MODE_NW
| EDLIB_MODE_SHW
| EDLIB_MODE_HW.

(** Modelled from the spec: edlib.h is not among the sources; the task
    is one of DISTANCE, LOCATION and PATH. *)
Inductive EdlibAlignTask : Type :=
| EDLIB_TASK_DISTANCE
| EDLIB_TASK_LOC
| EDLIB_TASK_PATH.

Definition mode_eqb (a b : EdlibAlignMode) : bool :=
  match a, b with
  | EDLIB_MODE_NW, EDLIB_MODE_NW => true
  | EDLIB_MODE_SHW, EDLIB_MODE_SHW => true
  | EDLIB_MODE_HW, EDLIB_MODE_HW => true
  | _, _ => false
  end.

End Edlib.

(** * Calls of printf *)

Module Stdio.

Inductive printf_arg : Type :=
| ArgInt (z : Z)
| ArgChar (c : ascii)
| ArgString (s : bytes)
(** a [double]: the given number of clock ticks over CLOCKS_PER_SEC *)
| ArgSeconds (ticks : Z).

(** One call: the format and the arguments after it. *)
Record printf_call : Type := Printf { format : bytes; arguments : list printf_arg }.

Definition decimal (z : Z) : bytes := str (NilZero.string_of_int (Z.to_int z)).

(** The text that a call writes, for the conversions %d, %c and %s;
    [None] for any other conversion and for an argument that does not
    fit. *)
Fixpoint sprintf (fmt : bytes) (args : list printf_arg) : option bytes :=
  match fmt with
  | [] => Some []
  | c :: fmt' =>
      if (c =? "%")%char then
        match fmt' with
        | d :: fmt'' =>
            match args with
            | a :: args' =>
                match
                  (if (d =? "d")%char
                   then match a with ArgInt z => Some (decimal z) | _ => None end
                   else if (d =? "c")%char
                   then match a with ArgChar x => Some [x] | _ => None end
                   else if (d =? "s")%char
                   then match a with ArgString s => Some s | _ => None end
                   else None),
                  sprintf fmt'' args'
                with
                | Some t, Some rest => Some (t ++ rest)
                | _, _ => None
                end
            | [] => None
            end
        | [] => None
        end
      else option_map (cons c) (sprintf fmt' args)
  end.

Definition written (call : printf_call) : option bytes :=
  sprintf (format call) (arguments call).

(** The text written by a sequence of calls. *)
Fixpoint text (calls : list printf_call) : option bytes :=
  match calls with
  | [] => Some []
  | call :: calls' =>
      match written call, text calls' with
      | Some t, Some rest => Some (t ++ rest)
      | _, _ => None
      end
  end.

End Stdio.

(** * The driver *)

Module Driver.
Import Edlib Stdio Reader.

Definition TAB : ascii := "009"%char.

(** ** Functions of the C library *)

(** [strcmp(a, b)]: zero exactly when the strings are equal. *)
Fixpoint strcmp (a b : bytes) : Z :=
  match a, b with
  | [], [] => 0
  | [], _ :: _ => -1
  | _ :: _, [] => 1
  | x :: a', y :: b' =>
      if (x =? y)%char then strcmp a' b'
      else Z.of_nat (nat_of_ascii x) - Z.of_nat (nat_of_ascii y)
  end.

(** [strcpy(dest, src)] into an array of [size] bytes: the new content
    of [dest]; a string that does not fit with its terminator is written
    past the end of the array, which is undefined. *)
Definition strcpy (size : nat) (src : bytes) : result bytes :=
  if Nat.ltb (length src) size then Done src else Undefined.

Definition isspace (c : ascii) : bool :=
  (c =? " ")%char
  || (Nat.leb 9 (nat_of_ascii c) && Nat.leb (nat_of_ascii c) 13).

Definition isdigit (c : ascii) : bool :=
  Nat.leb 48 (nat_of_ascii c) && Nat.leb (nat_of_ascii c) 57.

Fixpoint skip_spaces (s : bytes) : bytes :=
  match s with
  | [] => []
  | c :: s' => if isspace c then skip_spaces s' else s
  end.

Fixpoint digits_value (s : bytes) (acc : Z) : Z :=
  match s with
  | [] => acc
  | c :: s' =>
      if isdigit c
      then digits_value s' (10 * acc + (Z.of_nat (nat_of_ascii c) - 48))
      else acc
  end.

(** [atoi(s)]: white space, an optional sign, the leading digits; a
    value that is not an [int] is undefined. *)
Definition atoi (s : bytes) : result Z :=
  let s1 := skip_spaces s in
  let v :=
    match s1 with
    | [] => 0
    | c :: s2 =>
        if (c =? "-")%char then - digits_value s2 0
        else if (c =? "+")%char then digits_value s2 0
        else digits_value s1 0
    end in
  if in_int v then Done v else Undefined.

(** ** The command line *)

(** The local variables of [main] that the options set. *)
Record options : Type := mkOptions {
  silent : bool;
  mode : bytes;
  numBestSeqs : Z;
  findAlignment : bool;
  findStartLocations : bool;
  kArg : Z;
  numRepeats : Z;
  alignmentFormat : bytes;
  invalidOption : bool
}.

Definition initial : options :=
  mkOptions false (str "NW") 0 false false (-1) 1 (str "NICE") false.

(** The [switch] on the value returned by getopt. *)
Definition switch (option : ascii) (optarg : bytes) (o : options) : result options :=
  if (option =? "m")%char then
    m <- strcpy 16 optarg ;;
    Done (mkOptions (silent o) m (numBestSeqs o) (findAlignment o)
            (findStartLocations o) (kArg o) (numRepeats o)
            (alignmentFormat o) (invalidOption o))
  else if (option =? "n")%char then
    n <- atoi optarg ;;
    Done (mkOptions (silent o) (mode o) n (findAlignment o)
            (findStartLocations o) (kArg o) (numRepeats o)
            (alignmentFormat o) (invalidOption o))
  else if (option =? "k")%char then
    n <- atoi optarg ;;
    Done (mkOptions (silent o) (mode o) (numBestSeqs o) (findAlignment o)
            (findStartLocations o) n (numRepeats o)
            (alignmentFormat o) (invalidOption o))
  else if (option =? "f")%char then
    f <- strcpy 16 optarg ;;
    Done (mkOptions (silent o) (mode o) (numBestSeqs o) (findAlignment o)
            (findStartLocations o) (kArg o) (numRepeats o)
            f (invalidOption o))
  else if (option =? "s")%char then
    Done (mkOptions true (mode o) (numBestSeqs o) (findAlignment o)
            (findStartLocations o) (kArg o) (numRepeats o)
            (alignmentFormat o) (invalidOption o))
  else if (option =? "p")%char then
    Done (mkOptions (silent o) (mode o) (numBestSeqs o) true
            (findStartLocations o) (kArg o) (numRepeats o)
            (alignmentFormat o) (invalidOption o))
  else if (option =? "l")%char then
    Done (mkOptions (silent o) (mode o) (numBestSeqs o) (findAlignment o)
            true (kArg o) (numRepeats o)
            (alignmentFormat o) (invalidOption o))
  else if (option =? "r")%char then
    n <- atoi optarg ;;
    Done (mkOptions (silent o) (mode o) (numBestSeqs o) (findAlignment o)
            (findStartLocations o) (kArg o) n
            (alignmentFormat o) (invalidOption o))
  else
    Done (mkOptions (silent o) (mode o) (numBestSeqs o) (findAlignment o)
            (findStartLocations o) (kArg o) (numRepeats o)
            (alignmentFormat o) true).

(** [while((option = getopt(...)) >= 0)], over the values that the
    successive calls return, each with the [optarg] it leaves. *)
Fixpoint getopt_loop (returned : list (ascii * bytes)) (o : options) : result options :=
  match returned with
  | [] => Done o
  | (option, optarg) :: returned' =>
      o' <- switch option optarg o ;;
      getopt_loop returned' o'
  end.

(** The comparisons of [mode] with the three mode names. *)
Definition modeCode_of (mode : bytes) : option EdlibAlignMode :=
  if strcmp mode (str "SHW") =? 0 then Some EDLIB_MODE_SHW
  else if strcmp mode (str "HW") =? 0 then Some EDLIB_MODE_HW
  else if strcmp mode (str "NW") =? 0 then Some EDLIB_MODE_NW
  else None.

Definition invalid_format (alignmentFormat : bytes) : bool :=
  negb (strcmp alignmentFormat (str "NICE") =? 0)
  && negb (strcmp alignmentFormat (str "CIG_STD") =? 0)
  && negb (strcmp alignmentFormat (str "CIG_EXT") =? 0).

Definition alignTask_of (o : options) : EdlibAlignTask :=
  let alignTask := EDLIB_TASK_DISTANCE in
  let alignTask := if findStartLocations o then EDLIB_TASK_LOC else alignTask in
  if findAlignment o then EDLIB_TASK_PATH else alignTask.

Definition line (s : string) : bytes := str s ++ [LF].
Definition option_line (s : string) : bytes := TAB :: str s ++ [LF].

(** The calls of [fprintf(stderr, ...)] of the usage message. *)
Definition usage (argv0 : bytes) : list printf_call :=
  [ Printf [LF] [];
    Printf (line "Usage: %s [options...] <queries.fasta> <target.fasta>")
           [ArgString argv0];
    Printf (line "Options:") [];
    Printf (option_line "-s  If specified, there will be no score or alignment output (silent mode).") [];
    Printf (option_line "-m HW|NW|SHW  Alignment mode that will be used. [default: NW]") [];
    Printf (option_line "-n N  Score will be calculated only for N best sequences (best = with smallest score). If N = 0 then all sequences will be calculated. Specifying small N can make total calculation much faster. [default: 0]") [];
    Printf (option_line "-k K  Sequences with score > K will be discarded. Smaller k, faster calculation. If -1, no sequences will be discarded. [default: -1]") [];
    Printf (option_line "-p  If specified, alignment path will be found and printed. This may significantly slow down the calculation.") [];
    Printf (option_line "-l  If specified, start locations will be found and printed. Each start location corresponds to one end location. This may somewhat slow down the calculation, but is still faster then finding alignment path and does not consume any extra memory.") [];
    Printf (option_line "-f NICE|CIG_STD|CIG_EXT  Format that will be used to print alignment path, can be used only with -p. NICE will give visually attractive format, CIG_STD will  give standard cigar format and CIG_EXT will give extended cigar format. [default: NICE]") [];
    Printf (option_line "-r N  Core part of calculation will be repeated N times. This is useful only for performance measurement, when single execution is too short to measure. [default: 1]") [] ].

Section Engine.

(** The engine and libc's getopt are not part of the program: they are
    parameters.  [getopt argv] gives what the calls
    [getopt(argc, argv, "m:n:k:f:r:spl")] return, in order and each with
    its [optarg], until the first negative value, and [optind] after
    it. *)
Variable EdlibAlignConfig : Type.
Variable EdlibAlignResult : Type.
Variable edlibNewAlignConfig :
  Z -> EdlibAlignMode -> EdlibAlignTask -> option (list (ascii * ascii)) -> Z ->
  EdlibAlignConfig.
Variable edlibAlign :
  bytes -> Z -> bytes -> Z -> EdlibAlignConfig -> EdlibAlignResult.
Variable getopt : list bytes -> list (ascii * bytes) * Z.

(** The files and the two values that [clock()] returns. *)
Variable fs : filesystem.
Variables start finish : Z.

(** What the program does, in order. *)
Inductive event : Type :=
| Stdout (call : printf_call)
| Stderr (call : printf_call)
| Fopen (path : bytes)
| Clock
| Align (query : bytes) (queryLength : Z) (target : bytes) (targetLength : Z)
        (config : EdlibAlignConfig)
| FreeAlignResult (r : EdlibAlignResult)
| Free (buffer : bytes).

(** [for(int rep = 0; rep < numRepeats; rep++)]; [query + 1] points to
    the bytes of the line after its first one. *)
Fixpoint for_rep (fuel : nat) (rep numRepeats : Z)
    (query : bytes) (queryLength : Z) (target : bytes) (targetLength : Z)
    (k : Z) (modeCode : EdlibAlignMode) (alignTask : EdlibAlignTask)
  : result (list event) :=
  if rep <? numRepeats then
    match fuel with
    | O => OutOfFuel
    | S fuel' =>
        qlen <- int_sub queryLength 1 ;;
        tlen <- int_sub targetLength 1 ;;
        let config := edlibNewAlignConfig k modeCode alignTask None 0 in
        let result := edlibAlign (tl query) qlen (tl target) tlen config in
        rep' <- int_add rep 1 ;;
        rest <- for_rep fuel' rep' numRepeats query queryLength
                  target targetLength k modeCode alignTask ;;
        Done (Align (tl query) qlen (tl target) tlen config
              :: FreeAlignResult result :: rest)
    end
  else Done [].

(** [while(read_input(file, &query, &target, &queryLength,
    &targetLength))]. *)
Fixpoint while_read_input (fuel : nat) (file : option FILE) (numRepeats : Z)
    (k : Z) (modeCode : EdlibAlignMode) (alignTask : EdlibAlignTask)
  : result (list event) :=
  r <- read_input file ;;
  match r with
  | (None, _) => Done []
  | (Some p, file') =>
      match fuel with
      | O => OutOfFuel
      | S fuel' =>
          calls <- for_rep (Z.to_nat numRepeats) 0 numRepeats
                     (line1 p) (line1_length p) (line2 p) (line2_length p)
                     k modeCode alignTask ;;
          rest <- while_read_input fuel' (Some file') numRepeats
                    k modeCode alignTask ;;
          Done (calls ++ [Free (line1 p); Free (line2 p)] ++ rest)
      end
  end.

Definition fuel_of (file : option FILE) : nat :=
  match file with
  | Some f => length (unread f)
  | None => O
  end.

(** [main] after the loop over the options: the exit code and what was
    done before it.  [optind] is at most [argc], so that [optind + 1] is
    an [int]. *)
Definition run (argv : list bytes) (optind : Z) (o : options)
  : result (Z * list event) :=
  let argc := Z.of_nat (length argv) in
  if negb (optind + 1 =? argc) || invalidOption o then
    argv0 <- index argv 0 ;;
    Done (1, map Stderr (usage argv0))
  else if invalid_format (alignmentFormat o) then
    Done (1, [Stdout (Printf (line "Invalid alignment path format (-f)!") [])])
  else
    match modeCode_of (mode o) with
    | None => Done (1, [Stdout (Printf (line "Invalid mode (-m)!") [])])
    | Some modeCode =>
        let alignTask := alignTask_of o in
        queriesFilepath <- index argv optind ;;
        let file := fopen fs queriesFilepath in
        let k := kArg o in
        pairs <- while_read_input (fuel_of file) file (numRepeats o)
                   k modeCode alignTask ;;
        Done (0,
              [ Stdout (Printf (line "Using %s alignment mode.") [ArgString (mode o)]);
                Fopen queriesFilepath;
                Stdout (Printf (LF :: line "Comparing queries to target...") []);
                Clock ]
              ++ pairs
              ++ [ Clock;
                   Stdout (Printf (LF :: line "Cpu time of searching: %lf")
                             [ArgSeconds (finish - start)]) ])
    end.

(** [main(argc, argv)]. *)
Definition main (argv : list bytes) : result (Z * list event) :=
  let (returned, optind) := getopt argv in
  o <- getopt_loop returned initial ;;
  run argv optind o.

(** *** Vocabulary of the properties *)

Definition is_align (e : event) : bool :=
  match e with Align _ _ _ _ _ => true | _ => false end.

(** An event after the command line has been checked: a file is opened,
    the clock is read, the engine is called or a buffer is released. *)
Definition is_computation (e : event) : bool :=
  match e with
  | Stdout _ | Stderr _ => false
  | _ => true
  end.

Definition is_timing_report (e : event) : bool :=
  match e with
  | Stdout (Printf _ [ArgSeconds _]) => true
  | _ => false
  end.

(** The request built from a pair, and what one repetition does. *)
Definition request (k : Z) (modeCode : EdlibAlignMode) (alignTask : EdlibAlignTask)
    (p : pair) : event :=
  Align (tl (line1 p)) (line1_length p - 1)
        (tl (line2 p)) (line2_length p - 1)
        (edlibNewAlignConfig k modeCode alignTask None 0).

Definition repetition (k : Z) (modeCode : EdlibAlignMode) (alignTask : EdlibAlignTask)
    (p : pair) : list event :=
  [ request k modeCode alignTask p;
    FreeAlignResult
      (edlibAlign (tl (line1 p)) (line1_length p - 1)
                  (tl (line2 p)) (line2_length p - 1)
                  (edlibNewAlignConfig k modeCode alignTask None 0)) ].

Definition pair_events (n : nat) (k : Z) (modeCode : EdlibAlignMode)
    (alignTask : EdlibAlignTask) (p : pair) : list event :=
  concat (repeat (repetition k modeCode alignTask p) n)
  ++ [Free (line1 p); Free (line2 p)].

(** The events around the loop over the pairs. *)
Definition before_pairs (o : options) (queriesFilepath : bytes) : list event :=
  [ Stdout (Printf (line "Using %s alignment mode.") [ArgString (mode o)]);
    Fopen queriesFilepath;
    Stdout (Printf (LF :: line "Comparing queries to target...") []);
    Clock ].

Definition after_pairs : list event :=
  [ Clock;
    Stdout (Printf (LF :: line "Cpu time of searching: %lf")
              [ArgSeconds (finish - start)]) ].

(** The command line passes the checks of [main]: it leaves the options
    [o], the mode [modeCode] and the path [queriesFilepath]. *)
Definition accepts (argv : list bytes) (o : options) (modeCode : EdlibAlignMode)
    (queriesFilepath : bytes) : Prop :=
  exists returned optind,
    getopt argv = (returned, optind)
    /\ getopt_loop returned initial = Done o
    /\ optind + 1 = Z.of_nat (length argv)
    /\ invalidOption o = false
    /\ invalid_format (alignmentFormat o) = false
    /\ modeCode_of (mode o) = Some modeCode
    /\ index argv optind = Done queriesFilepath.

(** The option characters that the [switch] has a case for. *)
Definition handled (option : ascii) : bool :=
  existsb (Ascii.eqb option) (str "mnkfsplr").

(** The lengths of a pair leave room for the subtraction of 1. *)
Definition lengths_ok (p : pair) : Prop :=
  in_int (line1_length p - 1) = true /\ in_int (line2_length p - 1) = true.

End Engine.

Arguments Stdout {EdlibAlignConfig EdlibAlignResult} call.
Arguments Stderr {EdlibAlignConfig EdlibAlignResult} call.
Arguments Fopen {EdlibAlignConfig EdlibAlignResult} path.
Arguments Clock {EdlibAlignConfig EdlibAlignResult}.
Arguments Align {EdlibAlignConfig EdlibAlignResult}.
Arguments FreeAlignResult {EdlibAlignConfig EdlibAlignResult} r.
Arguments Free {EdlibAlignConfig EdlibAlignResult} buffer.

End Driver.

(** * The renderer *)

Module Render.
Import Edlib Stdio.

Section PrintAlignment.

(** The edit operations are constants of edlib.h, which is not among the
    sources: they are parameters. *)
Variables EDLIB_EDOP_MATCH EDLIB_EDOP_INSERT EDLIB_EDOP_DELETE : Z.

Variables query target : bytes.
Variable alignment : list Z.
Variables alignmentLength position : Z.

(** [for(int i = 0; i < alignmentLength; i++)] of the HW mode. *)
Fixpoint hw_loop (fuel : nat) (i tIdx : Z) : result Z :=
  if i <? alignmentLength then
    match fuel with
    | O => OutOfFuel
    | S fuel' =>
        a <- index alignment i ;;
        tIdx' <- (if negb (a =? EDLIB_EDOP_INSERT)
                  then int_sub tIdx 1 else Done tIdx) ;;
        i' <- int_add i 1 ;;
        hw_loop fuel' i' tIdx'
    end
  else Done tIdx.

(** The loop of the target line: the calls of printf, [tIdx] and
    [startTIdx] after it. *)
Fixpoint target_loop (fuel : nat) (start j tIdx startTIdx : Z)
  : result (list printf_call * Z * Z) :=
  bound <- int_add start 50 ;;
  if (j <? bound) && (j <? alignmentLength) then
    match fuel with
    | O => OutOfFuel
    | S fuel' =>
        a <- index alignment j ;;
        ' (call, tIdx') <-
          (if a =? EDLIB_EDOP_INSERT then Done (Printf (str "-") [], tIdx)
           else
             t <- int_add tIdx 1 ;;
             c <- index target t ;;
             Done (Printf (str "%c") [ArgChar c], t)) ;;
        let startTIdx' := if j =? start then tIdx' else startTIdx in
        j' <- int_add j 1 ;;
        ' (calls, tIdx'', startTIdx'') <-
          target_loop fuel' start j' tIdx' startTIdx' ;;
        Done (call :: calls, tIdx'', startTIdx'')
    end
  else Done ([], tIdx, startTIdx).

(** The loop of the line of match marks. *)
Fixpoint marker_loop (fuel : nat) (start j : Z) : result (list printf_call) :=
  bound <- int_add start 50 ;;
  if (j <? bound) && (j <? alignmentLength) then
    match fuel with
    | O => OutOfFuel
    | S fuel' =>
        a <- index alignment j ;;
        let call :=
          Printf (if a =? EDLIB_EDOP_MATCH then str "|" else str " ") [] in
        j' <- int_add j 1 ;;
        calls <- marker_loop fuel' start j' ;;
        Done (call :: calls)
    end
  else Done [].

(** The loop of the query line. *)
Fixpoint query_loop (fuel : nat) (start j qIdx startQIdx : Z)
  : result (list printf_call * Z * Z) :=
  bound <- int_add start 50 ;;
  if (j <? bound) && (j <? alignmentLength) then
    match fuel with
    | O => OutOfFuel
    | S fuel' =>
        a <- index alignment j ;;
        ' (call, qIdx') <-
          (if a =? EDLIB_EDOP_DELETE then Done (Printf (str "-") [], qIdx)
           else
             q <- int_add qIdx 1 ;;
             c <- index query q ;;
             Done (Printf (str "%c") [ArgChar c], q)) ;;
        let startQIdx' := if j =? start then qIdx' else startQIdx in
        j' <- int_add j 1 ;;
        ' (calls, qIdx'', startQIdx'') <-
          query_loop fuel' start j' qIdx' startQIdx' ;;
        Done (call :: calls, qIdx'', startQIdx'')
    end
  else Done ([], qIdx, startQIdx).

Definition range_format : bytes := str " (%d - %d)".

(** [for(int start = 0; start < alignmentLength; start += 50)]. *)
Fixpoint window_loop (fuel : nat) (start tIdx qIdx : Z) : result (list printf_call) :=
  if start <? alignmentLength then
    match fuel with
    | O => OutOfFuel
    | S fuel' =>
        ' (tcalls, tIdx', startTIdx) <- target_loop 50 start start tIdx (-1) ;;
        mcalls <- marker_loop 50 start start ;;
        ' (qcalls, qIdx', startQIdx) <- query_loop 50 start start qIdx qIdx ;;
        start' <- int_add start 50 ;;
        rest <- window_loop fuel' start' tIdx' qIdx' ;;
        Done ([Printf (str "T: ") []] ++ tcalls
              ++ [Printf (range_format ++ [LF])
                         [ArgInt (Z.max startTIdx 0); ArgInt tIdx'];
                  Printf (str "   ") []]
              ++ mcalls
              ++ [Printf [LF] []; Printf (str "Q: ") []] ++ qcalls
              ++ [Printf (range_format ++ [LF; LF])
                         [ArgInt (Z.max startQIdx 0); ArgInt qIdx']]
              ++ rest)
    end
  else Done [].

(** The value of [tIdx] before the windows. *)
Definition target_offset (modeCode : EdlibAlignMode) : result Z :=
  if mode_eqb modeCode EDLIB_MODE_HW
  then hw_loop (Z.to_nat alignmentLength) 0 position
  else Done (-1).

(** [printAlignment(query, target, alignment, alignmentLength, position,
    modeCode)]: its calls of printf. *)
Definition printAlignment (modeCode : EdlibAlignMode) : result (list printf_call) :=
  tIdx <- target_offset modeCode ;;
  window_loop (Z.to_nat alignmentLength) 0 tIdx (-1).

(** *** The output in closed form

    What the loops print, window by window.  The lines are as the
    specification words them; the two bounds of a range are the
    arguments that the code passes to printf.  The coordinate range of a
    line in the words of the specification is
    [Coordinates.coordinate_range]. *)

(** An operation takes a symbol of a sequence unless it is the gap of
    that sequence: INSERT for the target, DELETE for the query. *)
Definition takes (gap op : Z) : bool := negb (op =? gap).

(** The number of operations of a script that take a symbol. *)
Definition count (gap : Z) (script : list Z) : Z :=
  Z.of_nat (length (filter (takes gap) script)).

(** A sequence line: '-' for a gap, the next symbol otherwise; [cursor]
    is the index of the last symbol taken. *)
Fixpoint sequence_line (gap : Z) (buffer : bytes) (window : list Z)
    (cursor : Z) : bytes :=
  match window with
  | [] => []
  | op :: window' =>
      if takes gap op
      then nth (Z.to_nat (cursor + 1)) buffer "000"%char
           :: sequence_line gap buffer window' (cursor + 1)
      else "-"%char :: sequence_line gap buffer window' cursor
  end.

(** The two numbers that the code prints after a line:
    [max(startTIdx, 0)], where [startTIdx] is the cursor after the first
    operation of the window (lines 235 and 237), and the cursor after
    the last operation; the same with [startQIdx] for the query (lines
    254 and 256). *)
Definition printed_lower (gap : Z) (window : list Z) (cursor : Z) : Z :=
  Z.max (cursor + count gap (firstn 1 window)) 0.

Definition printed_upper (gap : Z) (window : list Z) (cursor : Z) : Z :=
  cursor + count gap window.

Definition printed_range (gap : Z) (window : list Z) (cursor : Z) : bytes :=
  str " (" ++ decimal (printed_lower gap window cursor) ++ str " - "
  ++ decimal (printed_upper gap window cursor) ++ str ")".

Definition marker_line (window : list Z) : bytes :=
  map (fun op => if op =? EDLIB_EDOP_MATCH then "|"%char else " "%char) window.

(** The three lines of a window. *)
Definition window_text (window : list Z) (tcursor qcursor : Z) : bytes :=
  (str "T: " ++ sequence_line EDLIB_EDOP_INSERT target window tcursor
     ++ printed_range EDLIB_EDOP_INSERT window tcursor ++ [LF])
  ++ (str "   " ++ marker_line window ++ [LF])
  ++ (str "Q: " ++ sequence_line EDLIB_EDOP_DELETE query window qcursor
        ++ printed_range EDLIB_EDOP_DELETE window qcursor ++ [LF; LF]).

(** The windows of 50 operations of a script; the last one may be
    shorter. *)
Fixpoint windows (fuel : nat) (script : list Z) : list (list Z) :=
  match fuel, script with
  | _, [] => []
  | O, _ => []
  | S fuel', _ :: _ => firstn 50 script :: windows fuel' (skipn 50 script)
  end.

Fixpoint layout (ws : list (list Z)) (tcursor qcursor : Z) : bytes :=
  match ws with
  | [] => []
  | w :: ws' =>
      window_text w tcursor qcursor
      ++ layout ws' (tcursor + count EDLIB_EDOP_INSERT w)
                    (qcursor + count EDLIB_EDOP_DELETE w)
  end.

(** The value of [tIdx] before the first window. *)
Definition start_cursor (modeCode : EdlibAlignMode) : Z :=
  if mode_eqb modeCode EDLIB_MODE_HW
  then position - count EDLIB_EDOP_INSERT alignment
  else -1.

(** The symbols that a script takes from a buffer, from the cursor on,
    are in the buffer and their indices are [int]s. *)
Definition in_bounds (gap : Z) (buffer : bytes) (script : list Z)
    (cursor : Z) : Prop :=
  -1 <= cursor
  /\ cursor + count gap script < Z.of_nat (length buffer)
  /\ cursor + count gap script <= INT_MAX.

(** *** The calls of printf, window by window *)

Fixpoint sequence_calls (gap : Z) (buffer : bytes) (window : list Z)
    (cursor : Z) : list printf_call :=
  match window with
  | [] => []
  | op :: window' =>
      if takes gap op
      then Printf (str "%c") [ArgChar (nth (Z.to_nat (cursor + 1)) buffer "000"%char)]
           :: sequence_calls gap buffer window' (cursor + 1)
      else Printf (str "-") [] :: sequence_calls gap buffer window' cursor
  end.

Definition marker_calls (window : list Z) : list printf_call :=
  map (fun op =>
         Printf (if op =? EDLIB_EDOP_MATCH then str "|" else str " ") [])
      window.

Definition window_calls (window : list Z) (tcursor qcursor : Z)
  : list printf_call :=
  [Printf (str "T: ") []]
  ++ sequence_calls EDLIB_EDOP_INSERT target window tcursor
  ++ [Printf (range_format ++ [LF])
        [ArgInt (printed_lower EDLIB_EDOP_INSERT window tcursor);
         ArgInt (printed_upper EDLIB_EDOP_INSERT window tcursor)];
      Printf (str "   ") []]
  ++ marker_calls window
  ++ [Printf [LF] []; Printf (str "Q: ") []]
  ++ sequence_calls EDLIB_EDOP_DELETE query window qcursor
  ++ [Printf (range_format ++ [LF; LF])
        [ArgInt (printed_lower EDLIB_EDOP_DELETE window qcursor);
         ArgInt (printed_upper EDLIB_EDOP_DELETE window qcursor)]].

Fixpoint layout_calls (ws : list (list Z)) (tcursor qcursor : Z)
  : list printf_call :=
  match ws with
  | [] => []
  | w :: ws' =>
      window_calls w tcursor qcursor
      ++ layout_calls ws' (tcursor + count EDLIB_EDOP_INSERT w)
                          (qcursor + count EDLIB_EDOP_DELETE w)
  end.

(** The lower bounds of the coordinate ranges among the calls. *)
Fixpoint lower_bounds (calls : list printf_call) : list Z :=
  match calls with
  | [] => []
  | Printf _ [ArgInt lo; ArgInt _] :: calls' => lo :: lower_bounds calls'
  | _ :: calls' => lower_bounds calls'
  end.

End PrintAlignment.

End Render.

(** * A getopt for the examples *)

Module Getopt.

(** The scan of getopt(3) for the option string "m:n:k:f:r:spl", on a
    command line whose options all come before its operands: the scan
    stops at the first operand or after "--". *)
Definition takes_argument (c : ascii) : bool :=
  existsb (Ascii.eqb c) (str "mnkfr").

Definition is_flag (c : ascii) : bool :=
  existsb (Ascii.eqb c) (str "spl").

(** The options of one argument [-abc...]; the boolean tells whether the
    next argument was taken as an option argument. *)
Fixpoint cluster (cs : bytes) (next : option bytes) : list (ascii * bytes) * bool :=
  match cs with
  | [] => ([], false)
  | c :: cs' =>
      if takes_argument c then
        match cs' with
        | _ :: _ => ([(c, cs')], false)
        | [] =>
            match next with
            | Some a => ([(c, a)], true)
            | None => ([("?"%char, [])], false)
            end
        end
      else
        let (r, used) := cluster cs' next in
        ((if is_flag c then c else "?"%char, []) :: r, used)
  end.

Fixpoint scan (args : list bytes) (skip : bool) (optind : Z)
  : list (ascii * bytes) * Z :=
  match args with
  | [] => ([], optind)
  | a :: args' =>
      if skip then scan args' false (optind + 1)
      else
        match a with
        | c0 :: c :: cs =>
            if (c0 =? "-")%char then
              if (c =? "-")%char && match cs with [] => true | _ => false end
              then ([], optind + 1)
              else
                let (r, used) := cluster (c :: cs) (hd_error args') in
                let (r', optind') := scan args' used (optind + 1) in
                (r ++ r', optind')
            else ([], optind)
        | _ => ([], optind)
        end
  end.

Definition getopt (argv : list bytes) : list (ascii * bytes) * Z :=
  scan (tl argv) false 1.

End Getopt.

(** * The program of the examples *)

Module Examples.
Import Edlib Stdio Reader Driver.

(** An engine that records its request and computes nothing. *)
Definition config : Type := (Z * EdlibAlignMode * EdlibAlignTask)%type.

Definition new_config (k : Z) (m : EdlibAlignMode) (t : EdlibAlignTask)
    (additionalEqualities : option (list (ascii * ascii)))
    (additionalEqualitiesLength : Z) : config := (k, m, t).

Definition align (query : bytes) (queryLength : Z) (target : bytes)
    (targetLength : Z) (c : config) : unit := tt.

Definition aligner (fs : filesystem) (argv : list bytes)
  : result (Z * list (event config unit)) :=
  main config unit new_config align Getopt.getopt fs 0 0 argv.

Definition pairs_txt : bytes := str "pairs.txt".

(** Two pairs of lines, each line with its leading mark. *)
Definition two_pairs : bytes :=
  text_bytes [str ">ACGT"; str "<ACGA"; str ">TT"; str "<TA"] [].

Definition files : filesystem := single_file pairs_txt two_pairs.

(** The edit operations with their values in edlib.h. *)
Definition MATCH : Z := 0.
Definition INSERT : Z := 1.
Definition DELETE : Z := 2.
Definition MISMATCH : Z := 3.

End Examples.

(** * printSeq *)

Module Debug.
Import Stdio.

Section PrintSeq.

(** The value of a [char] as an [int]: whether [char] is signed is left
    to the implementation, so the conversion is a parameter. *)
Variable int_of_char : ascii -> Z.

(** [for(int i = 0; i < static_cast<int>(seq.size()); i++)
    printf("%d ", seq[i]);] *)
Fixpoint for_seq (fuel : nat) (seq : bytes) (i : Z)
  : result (list printf_call) :=
  if i <? to_int (Z.of_nat (length seq)) then
    match fuel with
    | O => OutOfFuel
    | S fuel' =>
        c <- index seq i ;;
        i' <- int_add i 1 ;;
        calls <- for_seq fuel' seq i' ;;
        Done (Printf (str "%d ") [ArgInt (int_of_char c)] :: calls)
    end
  else Done [].

(** [printSeq(seq)]: its calls of printf. *)
Definition printSeq (seq : bytes) : result (list printf_call) :=
  calls <- for_seq (length seq) seq 0 ;;
  Done (calls ++ [Printf [LF] []]).

(** The line of a sequence: every value in decimal, each followed by a
    space. *)
Definition numbers (seq : bytes) : bytes :=
  concat (map (fun c => decimal (int_of_char c) ++ str " ") seq).

End PrintSeq.

End Debug.

(** * Vocabulary of the command line *)

Module CommandLine.
Import Edlib Driver.

(** The argument of the last occurrence of an option among the values
    that getopt returned. *)
Fixpoint last_optarg (c : ascii) (returned : list (ascii * bytes))
  : option bytes :=
  match returned with
  | [] => None
  | (c', optarg) :: returned' =>
      match last_optarg c returned' with
      | Some a => Some a
      | None => if (c' =? c)%char then Some optarg else None
      end
  end.

(** The option occurs among the values that getopt returned. *)
Definition given (c : ascii) (returned : list (ascii * bytes)) : bool :=
  existsb (fun r => (fst r =? c)%char) returned.

(** The variables of [main] after [silent = true]. *)
Definition silent_set (o : options) : options :=
  mkOptions true (mode o) (numBestSeqs o) (findAlignment o)
    (findStartLocations o) (kArg o) (numRepeats o) (alignmentFormat o)
    (invalidOption o).

Section Engine.

Variable EdlibAlignConfig : Type.
Variable EdlibAlignResult : Type.
Variable edlibAlign :
  bytes -> Z -> bytes -> Z -> EdlibAlignConfig -> EdlibAlignResult.

(** Events of the loop over the pairs in which every call of the engine
    is followed at once by the release of its result, and nothing else
    happens but the release of line buffers. *)
Fixpoint released (events : list (event EdlibAlignConfig EdlibAlignResult))
  : Prop :=
  match events with
  | [] => True
  | Align q ql t tl c :: FreeAlignResult r :: events' =>
      r = edlibAlign q ql t tl c /\ released events'
  | Free _ :: events' => released events'
  | _ => False
  end.

End Engine.

End CommandLine.

(** * Vocabulary of the printed ranges *)

Module Ranges.
Import Stdio Render.

(** The formats of the two ranges of a window. *)
Definition target_format : bytes := range_format ++ [LF].
Definition query_format : bytes := range_format ++ [LF; LF].

(** The ranges printed with a format: the two bounds of each. *)
Fixpoint ranges (fmt : bytes) (calls : list printf_call) : list (Z * Z) :=
  match calls with
  | [] => []
  | Printf f [ArgInt lo; ArgInt hi] :: calls' =>
      if list_eq_dec ascii_dec f fmt
      then (lo, hi) :: ranges fmt calls'
      else ranges fmt calls'
  | _ :: calls' => ranges fmt calls'
  end.

(** Ranges that follow one another from [from] up to [upto], the last
    index excluded: each starts where the one before ended and holds at
    least one index. *)
Fixpoint tiles (from : Z) (rs : list (Z * Z)) (upto : Z) : Prop :=
  match rs with
  | [] => from = upto
  | (lo, hi) :: rs' => lo = from /\ lo <= hi /\ tiles (hi + 1) rs' upto
  end.

(** The first operation of a window takes a symbol of the sequence. *)
Definition starts_with_symbol (gap : Z) (w : list Z) : Prop :=
  match w with
  | op :: _ => takes gap op = true
  | [] => False
  end.

(** The ranges of the windows of a sequence, from a cursor on. *)
Fixpoint spans (gap : Z) (ws : list (list Z)) (cursor : Z) : list (Z * Z) :=
  match ws with
  | [] => []
  | w :: ws' =>
      (printed_lower gap w cursor, printed_upper gap w cursor)
      :: spans gap ws' (cursor + count gap w)
  end.

End Ranges.

(** * The coordinate ranges in the words of the specification *)

Module Coordinates.
Import Render Ranges.

(** The indices of the symbols of a line, in order: an operation that
    takes a symbol takes the next one; [cursor] is the index of the last
    symbol taken before the line. *)
Fixpoint line_indices (gap : Z) (window : list Z) (cursor : Z) : list Z :=
  match window with
  | [] => []
  | op :: window' =>
      if takes gap op
      then (cursor + 1) :: line_indices gap window' (cursor + 1)
      else line_indices gap window' cursor
  end.

(** The inclusive coordinate range of a line: the index of its first
    symbol, not below 0, and the index of its last symbol.  A line
    without symbols has none. *)
Definition coordinate_range (gap : Z) (window : list Z) (cursor : Z)
  : option (Z * Z) :=
  match line_indices gap window cursor with
  | [] => None
  | i :: rest => Some (Z.max i 0, last rest i)
  end.

(** The coordinate ranges of the lines of a sequence, window by window;
    the cursor moves to the last index of each line. *)
Fixpoint coordinate_ranges (gap : Z) (ws : list (list Z)) (cursor : Z)
  : list (option (Z * Z)) :=
  match ws with
  | [] => []
  | w :: ws' =>
      coordinate_range gap w cursor
      :: coordinate_ranges gap ws' (last (line_indices gap w cursor) cursor)
  end.

(** Every window starts with a symbol of the sequence, or holds a
    symbol and no symbol was taken before it. *)
Fixpoint faithful (gap : Z) (ws : list (list Z)) (cursor : Z) : Prop :=
  match ws with
  | [] => True
  | w :: ws' =>
      (starts_with_symbol gap w \/ (cursor = -1 /\ 0 < count gap w))
      /\ faithful gap ws' (cursor + count gap w)
  end.

End Coordinates.

(** * Vocabulary of the lines of a stream *)

Module Lines.
Import Reader.

(** A whole line of a stream, before the bytes [after]: bytes without
    line feed and the line feed that ends them, or, at the end of the
    stream, at least one byte without line feed. *)
Definition whole_line (l after : bytes) : Prop :=
  (exists b, l = b ++ [LF] /\ no_line_feed b = true)
  \/ (l <> [] /\ no_line_feed l = true /\ after = []).

(** The bytes of the pairs, in order. *)
Definition pairs_bytes (ps : list pair) : bytes :=
  concat (map (fun p => line1 p ++ line2 p) ps).

(** The lines of the pairs are, in order, whole lines of a stream that
    ends with [rest]. *)
Fixpoint lines_in_pairs (ps : list pair) (rest : bytes) : Prop :=
  match ps with
  | [] => True
  | p :: ps' =>
      whole_line (line1 p) (line2 p ++ pairs_bytes ps' ++ rest)
      /\ whole_line (line2 p) (pairs_bytes ps' ++ rest)
      /\ lines_in_pairs ps' rest
  end.

End Lines.

(** * Properties of the integers *)

Module IntFacts.

Lemma in_int_iff (z : Z) : in_int z = true <-> INT_MIN <= z <= INT_MAX.
Proof.
  unfold in_int. rewrite andb_true_iff, !Z.leb_le. reflexivity.
Qed.

End IntFacts.

(** * Properties of the FASTA reader *)

Module FastaFacts.
Import Fasta.

Lemma bind_done {A B : Type} (c : result A) (k : A -> result B) (a : A) :
  c = Done a -> bind c k = k a.
Proof. intros ->. reflexivity. Qed.

Lemma is_residue_iff (c : ascii) :
  is_residue c = true <-> c <> GT /\ c <> CR /\ c <> LF.
Proof.
  unfold is_residue.
  destruct (Ascii.eqb_spec c GT), (Ascii.eqb_spec c CR), (Ascii.eqb_spec c LF);
    simpl; intuition congruence.
Qed.

Lemma back_push_back_last (v : list bytes) (r : bytes) (c : ascii) :
  back_push_back (v ++ [r]) c = Done (v ++ [r ++ [c]]).
Proof.
  unfold back_push_back. rewrite rev_unit, rev_involutive. reflexivity.
Qed.

Lemma for_buffer_app (a b : bytes) (p : parser) :
  for_buffer (a ++ b) p = (p' <- for_buffer a p ;; for_buffer b p')%result.
Proof.
  revert p. induction a as [|c a IH]; intros p; simpl; [reflexivity|].
  destruct (step c p) as [p'| |]; simpl; auto.
Qed.

(** Reading by chunks of [buffSize] bytes is reading byte by byte. *)
Lemma while_not_feof_bytes (fuel : nat) (s : bytes) (p : parser) :
  (length s < fuel)%nat ->
  while_not_feof fuel (mkFILE s false) p = for_buffer s p.
Proof.
  revert s p. induction fuel as [|fuel IH]; intros s p Hlen; [lia|].
  cbn [while_not_feof feof at_eof fread unread orb].
  assert (Hpos : (0 < buffSize)%nat) by (unfold buffSize; lia).
  revert Hpos. generalize buffSize. intros n Hpos.
  destruct (Nat.ltb_spec (length s) n) as [Hshort|Hlong].
  - rewrite firstn_all2 by lia.
    destruct (for_buffer s p) as [p'| |]; try reflexivity.
    destruct fuel; reflexivity.
  - replace (for_buffer s p)
      with (for_buffer (firstn n s ++ skipn n s) p)
      by (rewrite firstn_skipn; reflexivity).
    rewrite for_buffer_app.
    destruct (for_buffer (firstn n s) p) as [p'| |]; cbn [bind]; auto.
    apply IH. rewrite length_skipn. lia.
Qed.

Lemma nonempty_last {A : Type} (v : list A) :
  v <> [] -> exists front last, v = front ++ [last].
Proof.
  intros H. destruct (exists_last H) as [front [last E]]. eauto.
Qed.

Lemma residues_only_app (v w : list bytes) :
  residues_only (v ++ w) <-> residues_only v /\ residues_only w.
Proof. apply Forall_app. Qed.

Lemma step_total (c : ascii) (p : parser) :
  consistent p ->
  exists p',
    step c p = Done p'
    /\ consistent p'
    /\ inHeader p' = next_header (inHeader p) c
    /\ concat (seqs p') = concat (seqs p) ++ kept (inHeader p) c
    /\ (residues_only (seqs p) -> residues_only (seqs p')).
Proof.
  intros Hc. destruct p as [h q v]. unfold step, kept, next_header, consistent in *.
  cbn [inHeader inSequence seqs] in *.
  destruct h.
  - destruct (Ascii.eqb_spec c LF); eexists; (split; [reflexivity|]);
      cbn [inHeader inSequence seqs]; rewrite app_nil_r; auto.
  - unfold is_residue.
    destruct (Ascii.eqb_spec c GT) as [|Hgt]; cbn [negb andb orb].
    { eexists; split; [reflexivity|]; cbn [inHeader inSequence seqs].
      rewrite app_nil_r. repeat split; auto. discriminate. }
    destruct (Ascii.eqb_spec c CR) as [|Hcr]; cbn [negb andb orb].
    { eexists; split; [reflexivity|]; cbn [inHeader inSequence seqs].
      rewrite app_nil_r. auto. }
    destruct (Ascii.eqb_spec c LF) as [|Hlf]; cbn [negb andb orb].
    { eexists; split; [reflexivity|]; cbn [inHeader inSequence seqs].
      rewrite app_nil_r. auto. }
    assert (Hres : is_residue c = true) by (apply is_residue_iff; auto).
    destruct q; cbn [negb inHeader inSequence seqs].
    + destruct (nonempty_last v (Hc eq_refl)) as [front [last ->]].
      rewrite back_push_back_last. cbn [bind].
      eexists; split; [reflexivity|]; cbn [inHeader inSequence seqs].
      repeat split.
      * intros _ E. apply app_eq_nil in E. destruct E; discriminate.
      * rewrite !concat_app. cbn [concat]. rewrite !app_nil_r, app_assoc.
        reflexivity.
      * intros H. apply residues_only_app in H. destruct H as [Hf Hl].
        apply residues_only_app. split; [assumption|].
        inversion Hl; subst. constructor; [|constructor].
        apply Forall_app. split; [assumption|]. constructor; auto.
    + rewrite back_push_back_last. cbn [bind].
      eexists; split; [reflexivity|]; cbn [inHeader inSequence seqs].
      repeat split.
      * intros _ E. apply app_eq_nil in E. destruct E; discriminate.
      * rewrite !concat_app. cbn [concat app]. reflexivity.
      * intros H. apply residues_only_app. split; [assumption|].
        constructor; [|constructor]. constructor; auto.
Qed.

(** The loop over the bytes never leaves a defined state; it keeps the
    residues outside of the header lines, in their order. *)
Lemma for_buffer_total (s : bytes) (p : parser) :
  consistent p ->
  exists p',
    for_buffer s p = Done p'
    /\ consistent p'
    /\ concat (seqs p')
       = concat (seqs p) ++ filter is_residue (outside_headers (inHeader p) s)
    /\ (residues_only (seqs p) -> residues_only (seqs p')).
Proof.
  revert p. induction s as [|c s IH]; intros p Hc.
  - exists p. cbn. rewrite app_nil_r. auto.
  - destruct (step_total c p Hc) as [p1 [E1 [Hc1 [Hh [Hcat Hres]]]]].
    destruct (IH p1 Hc1) as [p2 [E2 [Hc2 [Hcat2 Hres2]]]].
    exists p2. cbn [for_buffer]. rewrite E1. cbn [bind].
    split; [assumption|]. split; [assumption|]. split; [|auto].
    rewrite Hcat2, Hcat, Hh, <- app_assoc. f_equal.
    unfold kept, next_header. cbn [outside_headers].
    destruct (inHeader p); [reflexivity|].
    unfold is_residue at 1.
    destruct (Ascii.eqb_spec c GT); cbn [negb andb]; [reflexivity|].
    cbn [filter]. fold (is_residue c).
    replace (negb (c =? CR)%char && negb (c =? LF)%char) with (is_residue c).
    + destruct (is_residue c); reflexivity.
    + unfold is_residue. destruct (Ascii.eqb_spec c GT); [contradiction|].
      reflexivity.
Qed.

(** A line feed after the last byte changes no record. *)
Lemma for_buffer_line_feed (s : bytes) (p p' : parser) :
  for_buffer s p = Done p' ->
  exists p'', for_buffer (s ++ [LF]) p = Done p'' /\ seqs p'' = seqs p'.
Proof.
  intros E. rewrite for_buffer_app, E. cbn [bind for_buffer].
  unfold step. destruct (inHeader p').
  - eexists. split; reflexivity.
  - exists p'. split; reflexivity.
Qed.

(** *** Streams made of entries *)

Lemma header_run (h rest : bytes) (q : bool) (v : list bytes) :
  forallb (fun c => negb (c =? LF)%char && negb (c =? GT)%char) h = true ->
  for_buffer (h ++ LF :: rest) (mkParser true q v)
  = for_buffer rest (mkParser false q v).
Proof.
  induction h as [|c h IH]; intros H.
  - reflexivity.
  - cbn [forallb] in H. apply andb_true_iff in H. destruct H as [Hc H].
    apply andb_true_iff in Hc. destruct Hc as [Hc _].
    cbn [app for_buffer]. unfold step at 1. cbn [inHeader].
    destruct (c =? LF)%char; [discriminate|]. cbn [bind]. auto.
Qed.

Lemma body_run_more (b : bytes) (v : list bytes) (r : bytes) :
  forallb (fun c => negb (c =? GT)%char) b = true ->
  for_buffer b (mkParser false true (v ++ [r]))
  = Done (mkParser false true (v ++ [r ++ filter is_residue b])).
Proof.
  revert r. induction b as [|c b IH]; intros r H.
  - cbn. rewrite app_nil_r. reflexivity.
  - cbn [forallb] in H. apply andb_true_iff in H. destruct H as [Hc H].
    cbn [for_buffer filter]. unfold step, is_residue.
    cbn [inHeader inSequence seqs negb].
    destruct (c =? GT)%char; [discriminate|]. cbn [negb andb].
    destruct (c =? CR)%char; cbn [negb andb orb bind]; [auto|].
    destruct (c =? LF)%char; cbn [negb andb orb bind]; [auto|].
    rewrite back_push_back_last. cbn [bind inHeader inSequence].
    rewrite IH by assumption. rewrite <- app_assoc. reflexivity.
Qed.

Lemma body_run_start (b : bytes) (v : list bytes) :
  forallb (fun c => negb (c =? GT)%char) b = true ->
  existsb is_residue b = true ->
  for_buffer b (mkParser false false v)
  = Done (mkParser false true (v ++ [filter is_residue b])).
Proof.
  induction b as [|c b IH]; intros H Hex.
  - discriminate.
  - cbn [forallb] in H. apply andb_true_iff in H. destruct H as [Hc H].
    cbn [existsb] in Hex.
    cbn [for_buffer filter]. unfold step. unfold is_residue in Hex |- *.
    cbn [inHeader inSequence seqs negb].
    destruct (c =? GT)%char; [discriminate|]. cbn [negb andb] in *.
    destruct (c =? CR)%char; cbn [negb andb orb bind] in *; [auto|].
    destruct (c =? LF)%char; cbn [negb andb orb bind] in *; [auto|].
    rewrite back_push_back_last. cbn [bind inHeader inSequence app].
    apply body_run_more. assumption.
Qed.

Lemma entry_run (e : entry) (rest : bytes) (q : bool) (v : list bytes) :
  well_formed e = true ->
  for_buffer (entry_bytes e ++ rest) (mkParser false q v)
  = for_buffer rest (mkParser false true (v ++ [residues e])).
Proof.
  unfold well_formed, entry_bytes. intros H.
  apply andb_true_iff in H. destruct H as [H Hex].
  apply andb_true_iff in H. destruct H as [Hh Hb].
  cbn [app for_buffer]. unfold step at 1. cbn [inHeader bind].
  replace ((GT =? GT)%char) with true by reflexivity. cbn [bind seqs].
  rewrite <- app_assoc. cbn [app]. rewrite header_run by assumption.
  rewrite for_buffer_app, body_run_start by assumption. reflexivity.
Qed.

Lemma entries_run (es : list entry) (q : bool) (v : list bytes) :
  forallb well_formed es = true ->
  exists q',
    for_buffer (stream_of es) (mkParser false q v)
    = Done (mkParser false q' (v ++ map residues es)).
Proof.
  revert q v. induction es as [|e es IH]; intros q v H.
  - exists q. cbn. rewrite app_nil_r. reflexivity.
  - cbn [forallb] in H. apply andb_true_iff in H. destruct H as [He H].
    unfold stream_of. cbn [map concat]. rewrite entry_run by assumption.
    destruct (IH true (v ++ [residues e]) H) as [q' E].
    exists q'. unfold stream_of in E. rewrite E, <- app_assoc. reflexivity.
Qed.

Lemma count_markers_app (a b : bytes) :
  count_markers (a ++ b) = (count_markers a + count_markers b)%nat.
Proof. unfold count_markers. rewrite filter_app, length_app. reflexivity. Qed.

Lemma count_markers_none (s : bytes) :
  forallb (fun c => negb (c =? GT)%char) s = true -> count_markers s = O.
Proof.
  unfold count_markers. induction s as [|c s IH]; intros H; [reflexivity|].
  cbn [forallb] in H. apply andb_true_iff in H. destruct H as [Hc H].
  cbn [filter]. destruct (c =? GT)%char; [discriminate|]. auto.
Qed.

Lemma count_markers_entries (es : list entry) :
  forallb well_formed es = true ->
  count_markers (stream_of es) = length es.
Proof.
  induction es as [|e es IH]; intros H; [reflexivity|].
  cbn [forallb] in H. apply andb_true_iff in H. destruct H as [He H].
  unfold stream_of. cbn [map concat length]. rewrite count_markers_app.
  fold (stream_of es). rewrite IH by assumption. f_equal.
  unfold well_formed in He.
  apply andb_true_iff in He. destruct He as [He _].
  apply andb_true_iff in He. destruct He as [Hh Hb].
  unfold entry_bytes.
  change (GT :: header e ++ LF :: body e)
    with ([GT] ++ header e ++ [LF] ++ body e).
  rewrite !count_markers_app, (count_markers_none (body e)) by assumption.
  rewrite (count_markers_none (header e)).
  - reflexivity.
  - rewrite forallb_forall in Hh |- *. intros c Hin.
    specialize (Hh c Hin). apply andb_true_iff in Hh. tauto.
Qed.

(** What [readFastaSequences] returns for a file that can be opened. *)
Lemma read_opened (fs : filesystem) (path content : bytes) :
  fs path = Some content ->
  readFastaSequences fs path
  = (p <- for_buffer content (mkParser false false []) ;; Done (0, seqs p))%result.
Proof.
  intros E. unfold readFastaSequences, fopen. rewrite E. cbn [unread].
  rewrite while_not_feof_bytes by lia. reflexivity.
Qed.

Lemma consistent_initial : consistent (mkParser false false []).
Proof. intros H. discriminate. Qed.

(** *** Examples *)

Example read_two_entries :
  readFastaSequences (single_file a_fa (stream_of two_entries)) a_fa
  = Done (0, [str "ACGT"; str "TTG"]).
Proof. vm_compute. reflexivity. Qed.

Example read_missing_file :
  readFastaSequences (single_file a_fa (stream_of two_entries)) (str "b.fa")
  = Done (1, []).
Proof. vm_compute. reflexivity. Qed.

(** A file of two full chunks and one byte is read in four calls of
    fread. *)
Example read_long_sequence :
  readFastaSequences
    (single_file a_fa (str ">s" ++ [LF] ++ repeat "A"%char (4095 + 4095))) a_fa
  = Done (0, [repeat "A"%char (4095 + 4095)]).
Proof. vm_compute. reflexivity. Qed.

(** *** The number of records *)

(** C1, as stated, fails: a header that no sequence follows gives no
    record, a sequence before the first header gives a record without a
    marker, and a marker byte inside a header line starts nothing. *)
Lemma records_differ_from_markers :
  (readFastaSequences (single_file a_fa (str ">a" ++ [LF])) a_fa = Done (0, [])
   /\ count_markers (str ">a" ++ [LF]) = 1%nat)
  /\ (readFastaSequences (single_file a_fa (str "ACGT" ++ [LF])) a_fa
      = Done (0, [str "ACGT"])
      /\ count_markers (str "ACGT" ++ [LF]) = 0%nat)
  /\ (readFastaSequences (single_file a_fa (str ">a>b" ++ [LF] ++ str "AC")) a_fa
      = Done (0, [str "AC"])
      /\ count_markers (str ">a>b" ++ [LF] ++ str "AC") = 2%nat).
Proof. vm_compute. repeat split. Qed.

(** C1 (amended): for a file made of entries, each a marker, a header
    line without a further marker, and sequence lines that hold at least
    one residue and no marker, the number of records that
    [readFastaSequences] produces equals the number of '>' bytes of the
    file, which is the number of entries. *)
Theorem records_count_markers (fs : filesystem) (path : bytes) (es : list entry) :
  fs path = Some (stream_of es) ->
  forallb well_formed es = true ->
  exists recs,
    readFastaSequences fs path = Done (0, recs)
    /\ length recs = count_markers (stream_of es)
    /\ length recs = length es.
Proof.
  intros Hfile Hwf. rewrite (read_opened _ _ _ Hfile).
  destruct (entries_run es false [] Hwf) as [q E]. rewrite E. cbn [bind seqs app].
  eexists. split; [reflexivity|].
  rewrite count_markers_entries, length_map by assumption. split; reflexivity.
Qed.

Lemma records_count_markers_witness :
  single_file a_fa (stream_of two_entries) a_fa = Some (stream_of two_entries)
  /\ forallb well_formed two_entries = true
  /\ exists recs,
       readFastaSequences (single_file a_fa (stream_of two_entries)) a_fa
       = Done (0, recs)
       /\ length recs = count_markers (stream_of two_entries)
       /\ length recs = length two_entries.
Proof.
  split; [reflexivity|]. split; [reflexivity|].
  apply (records_count_markers (single_file a_fa (stream_of two_entries))
           a_fa two_entries); reflexivity.
Defined.

(** *** The content of the records *)

(** C7: every record that [readFastaSequences] produces holds residue
    bytes only (no line feed, no carriage return, no marker), the
    records together are the residues outside of the header lines in
    the order of the file, the lines of an entry are joined into one
    record, and the last record needs no line feed after it. *)
Theorem records_hold_residues (fs : filesystem) (path content : bytes) :
  fs path = Some content ->
  exists recs,
    readFastaSequences fs path = Done (0, recs)
    /\ Forall (fun r => Forall (fun c => c <> LF /\ c <> CR /\ c <> GT) r) recs
    /\ concat recs = filter is_residue (outside_headers false content)
    /\ (forall es, forallb well_formed es = true -> content = stream_of es ->
        recs = map (fun e => filter is_residue (body e)) es)
    /\ (forall fs', fs' path = Some (content ++ [LF]) ->
        readFastaSequences fs' path = Done (0, recs)).
Proof.
  intros Hfile. rewrite (read_opened _ _ _ Hfile).
  destruct (for_buffer_total content _ consistent_initial)
    as [p [E [_ [Hcat Hres]]]].
  rewrite E. cbn [bind]. exists (seqs p). split; [reflexivity|].
  split; [|split; [|split]].
  - assert (H : residues_only (seqs p)) by (apply Hres; constructor).
    eapply Forall_impl; [|exact H]. intros r Hr.
    eapply Forall_impl; [|exact Hr]. intros c Hc.
    apply is_residue_iff in Hc. tauto.
  - exact Hcat.
  - intros es Hwf ->. destruct (entries_run es false [] Hwf) as [q E'].
    rewrite E' in E. injection E as <-. reflexivity.
  - intros fs' Hfile'. rewrite (read_opened _ _ _ Hfile').
    destruct (for_buffer_line_feed _ _ _ E) as [p'' [E'' Hsame]].
    rewrite E''. cbn [bind]. rewrite Hsame. reflexivity.
Qed.

Lemma records_hold_residues_witness :
  single_file a_fa (stream_of two_entries) a_fa = Some (stream_of two_entries)
  /\ exists recs,
       readFastaSequences (single_file a_fa (stream_of two_entries)) a_fa
       = Done (0, recs)
       /\ Forall (fun r => Forall (fun c => c <> LF /\ c <> CR /\ c <> GT) r) recs.
Proof.
  split; [reflexivity|].
  destruct (records_hold_residues (single_file a_fa (stream_of two_entries))
              a_fa (stream_of two_entries) eq_refl) as [recs [H1 [H2 _]]].
  exists recs. split; assumption.
Defined.

End FastaFacts.

(** * Properties of the paired-line reader *)

Module ReaderFacts.
Import Reader.

Lemma to_int_small (z : Z) : INT_MIN <= z <= INT_MAX -> to_int z = z.
Proof.
  unfold to_int, INT_MIN, INT_MAX. intros H.
  rewrite Z.mod_small by lia. lia.
Qed.

Lemma take_line_terminated (body rest : bytes) :
  no_line_feed body = true ->
  take_line (terminated body ++ rest) = (terminated body, rest).
Proof.
  unfold terminated, no_line_feed.
  induction body as [|c body IH]; intros H; cbn [app take_line].
  - reflexivity.
  - cbn [forallb] in H. apply andb_true_iff in H. destruct H as [Hc H].
    destruct (c =? LF)%char; [discriminate|].
    cbn [app] in IH. rewrite IH by assumption. reflexivity.
Qed.

Lemma take_line_last (l : bytes) :
  no_line_feed l = true -> take_line l = (l, []).
Proof.
  unfold no_line_feed.
  induction l as [|c l IH]; intros H; cbn [take_line]; [reflexivity|].
  cbn [forallb] in H. apply andb_true_iff in H. destruct H as [Hc H].
  destruct (c =? LF)%char; [discriminate|].
  rewrite IH by assumption. reflexivity.
Qed.

Lemma existsb_terminated (body : bytes) :
  existsb (Ascii.eqb LF) (terminated body) = true.
Proof.
  unfold terminated. rewrite existsb_app. cbn. apply orb_true_r.
Qed.

Lemma existsb_no_line_feed (l : bytes) :
  no_line_feed l = true -> existsb (Ascii.eqb LF) l = false.
Proof.
  unfold no_line_feed. induction l as [|c l IH]; intros H; [reflexivity|].
  cbn [forallb] in H. apply andb_true_iff in H. destruct H as [Hc H].
  cbn [existsb]. rewrite IH by assumption.
  rewrite Ascii.eqb_sym. destruct (c =? LF)%char; [discriminate|reflexivity].
Qed.

Lemma getline_empty (e : bool) :
  getline (mkFILE [] e) = (-1, [], mkFILE [] true).
Proof. reflexivity. Qed.

Lemma getline_terminated (body rest : bytes) (e : bool) :
  no_line_feed body = true ->
  getline (mkFILE (terminated body ++ rest) e)
  = (Z.of_nat (length (terminated body)), terminated body, mkFILE rest e).
Proof.
  intros H. unfold getline. cbn [unread at_eof].
  rewrite take_line_terminated by assumption.
  rewrite existsb_terminated. cbn [negb]. rewrite orb_false_r.
  unfold terminated. destruct body; reflexivity.
Qed.

Lemma getline_last (l : bytes) (e : bool) :
  no_line_feed l = true -> l <> [] ->
  getline (mkFILE l e) = (Z.of_nat (length l), l, mkFILE [] true).
Proof.
  intros H Hne. unfold getline. cbn [unread at_eof].
  rewrite take_line_last, existsb_no_line_feed by assumption.
  cbn [negb]. rewrite orb_true_r.
  destruct l; [contradiction|reflexivity].
Qed.

Lemma length_not_minus_one (l : bytes) :
  fits l -> (to_int (Z.of_nat (length l)) =? -1) = false.
Proof.
  unfold fits, INT_MAX. intros H.
  rewrite to_int_small by (unfold INT_MIN, INT_MAX; lia).
  apply Z.eqb_neq. lia.
Qed.

Lemma length_to_int (l : bytes) :
  fits l -> to_int (Z.of_nat (length l)) = Z.of_nat (length l).
Proof.
  unfold fits, INT_MAX. intros H.
  apply to_int_small. unfold INT_MIN, INT_MAX. lia.
Qed.

Lemma read_all_empty (fuel : nat) (e : bool) :
  read_all fuel (mkFILE [] e) = Done [].
Proof. destruct fuel; reflexivity. Qed.

Lemma text_bytes_cons (b : bytes) (bodies : list bytes) (last : bytes) :
  text_bytes (b :: bodies) last = terminated b ++ text_bytes bodies last.
Proof. unfold text_bytes. cbn [map concat]. rewrite <- app_assoc. reflexivity. Qed.

Lemma length_terminated (b : bytes) : length (terminated b) = S (length b).
Proof. unfold terminated. rewrite length_app. cbn. lia. Qed.

Lemma read_all_lines (fuel : nat) :
  forall (bodies : list bytes) (last : bytes) (e : bool),
    Forall (fun b => no_line_feed b = true) bodies ->
    no_line_feed last = true ->
    Forall fits (text_lines bodies last) ->
    (length (text_bytes bodies last) <= fuel)%nat ->
    read_all fuel (mkFILE (text_bytes bodies last) e)
    = Done (pair_up (text_lines bodies last)).
Proof.
  induction fuel as [fuel IH] using lt_wf_ind.
  intros bodies last e Hb Hl Hfit Hlen.
  destruct bodies as [|b1 bodies].
  - (* no terminated line *)
    unfold text_bytes, text_lines in *. cbn [map concat app] in *.
    destruct last as [|c last].
    + apply read_all_empty.
    + inversion Hfit as [|? ? Hf1 _]; subst.
      destruct fuel; cbn [read_all read_input];
        rewrite (getline_last (c :: last) e Hl) by discriminate;
        rewrite length_not_minus_one by assumption; reflexivity.
  - inversion Hb as [|? ? Hb1 Hb']; subst.
    rewrite text_bytes_cons in *.
    unfold text_lines in Hfit |- *. cbn [map app] in Hfit |- *.
    inversion Hfit as [|? ? Hf1 Hfit']; subst.
    destruct bodies as [|b2 bodies].
    + (* one terminated line, and maybe a last one *)
      unfold text_bytes in *. cbn [map concat app] in *.
      destruct last as [|c last].
      * rewrite app_nil_r.
        replace (terminated b1) with (terminated b1 ++ []) at 1
          by apply app_nil_r.
        destruct fuel; cbn [read_all read_input];
          rewrite (getline_terminated b1 [] e Hb1);
          rewrite length_not_minus_one by assumption; reflexivity.
      * inversion Hfit' as [|? ? Hf2 _]; subst.
        destruct fuel as [|fuel].
        { rewrite length_app, length_terminated in Hlen. lia. }
        cbn [read_all read_input].
        rewrite (getline_terminated b1 (c :: last) e Hb1).
        rewrite length_not_minus_one by assumption.
        rewrite (getline_last (c :: last) e Hl) by discriminate.
        rewrite length_not_minus_one by assumption.
        cbn [bind]. rewrite read_all_empty. cbn [bind pair_up].
        rewrite !length_to_int by assumption. reflexivity.
    + (* two terminated lines *)
      inversion Hb' as [|? ? Hb2 Hb'']; subst.
      rewrite text_bytes_cons in *. cbn [map app] in Hfit' |- *.
      inversion Hfit' as [|? ? Hf2 Hfit'']; subst.
      destruct fuel as [|fuel].
      { rewrite length_app, length_terminated in Hlen. lia. }
      cbn [read_all read_input].
      rewrite (getline_terminated b1 _ e Hb1).
      rewrite length_not_minus_one by assumption.
      rewrite (getline_terminated b2 _ e Hb2).
      rewrite length_not_minus_one by assumption.
      cbn [bind].
      rewrite (IH fuel (Nat.lt_succ_diag_r fuel) bodies last e Hb'' Hl Hfit'').
      * cbn [bind pair_up]. rewrite !length_to_int by assumption. reflexivity.
      * rewrite !length_app, !length_terminated in Hlen. lia.
Qed.

(** Every stream is a text: its bodies are the runs between its line
    feeds. *)
Lemma stream_is_text (s : bytes) :
  exists bodies last,
    s = text_bytes bodies last
    /\ Forall (fun b => no_line_feed b = true) bodies
    /\ no_line_feed last = true.
Proof.
  induction s as [|c s [bodies [last [E [Hb Hl]]]]].
  - exists [], []. repeat split. constructor.
  - destruct (Ascii.eqb_spec c LF) as [->|Hc].
    + exists ([] :: bodies), last. rewrite text_bytes_cons, <- E.
      repeat split; [|assumption]. constructor; [reflexivity|assumption].
    + assert (Hn : negb (c =? LF)%char = true)
        by (apply negb_true_iff, Ascii.eqb_neq; assumption).
      destruct bodies as [|b bodies].
      * exists [], (c :: last). unfold text_bytes in *. cbn [map concat app] in *.
        rewrite E. repeat split; [constructor|].
        unfold no_line_feed in *. cbn [forallb]. rewrite Hn. exact Hl.
      * exists ((c :: b) :: bodies), last. rewrite text_bytes_cons in *.
        rewrite E. repeat split; [|assumption].
        inversion Hb; subst. constructor; [|assumption].
        unfold no_line_feed in *. cbn [forallb]. rewrite Hn. assumption.
Qed.

Lemma length_pair_up (ls : list bytes) :
  length (pair_up ls) = Nat.div2 (length ls).
Proof.
  induction ls as [ls IH] using (induction_ltof1 _ (@length bytes)).
  destruct ls as [|l1 [|l2 ls]]; try reflexivity.
  cbn [pair_up length Nat.div2]. f_equal. apply IH. unfold ltof. cbn. lia.
Qed.

(** *** Examples *)

Example read_two_pairs :
  read_pairs (mkFILE (text_bytes [str ">ACGT"; str "<ACGA"; str ">TT"; str "<TA"] []) false)
  = Done [ mkPair (str ">ACGT" ++ [LF]) (str "<ACGA" ++ [LF]) 6 6;
           mkPair (str ">TT" ++ [LF]) (str "<TA" ++ [LF]) 4 4 ].
Proof. vm_compute. reflexivity. Qed.

Example read_three_lines :
  read_pairs (mkFILE (text_bytes [str ">ACGT"; str "<ACGA"; str ">TT"] []) false)
  = Done [ mkPair (str ">ACGT" ++ [LF]) (str "<ACGA" ++ [LF]) 6 6 ].
Proof. vm_compute. reflexivity. Qed.

(** *** The pairs that the reader returns *)

(** C6: on a stream of lines the calls of [read_input] return the lines
    two by two, in order: N pairs for 2N lines, and for 2N+1 lines the
    same N pairs, the last line being left out; the end of the stream at
    the first or at the second read gives [false] and nothing else. *)
Theorem read_input_pairs (bodies : list bytes) (last : bytes) :
  Forall (fun b => no_line_feed b = true) bodies ->
  no_line_feed last = true ->
  Forall fits (text_lines bodies last) ->
  read_pairs (mkFILE (text_bytes bodies last) false)
  = Done (pair_up (text_lines bodies last))
  /\ length (pair_up (text_lines bodies last))
     = Nat.div2 (length (text_lines bodies last))
  /\ (forall e, read_input (Some (mkFILE [] e)) = Done (None, mkFILE [] true))
  /\ (forall l e, fst (take_line l) = l -> l <> [] ->
      exists f, read_input (Some (mkFILE l e)) = Done (None, f)).
Proof.
  intros Hb Hl Hfit. split; [|split; [|split]].
  - unfold read_pairs. apply read_all_lines; auto.
  - apply length_pair_up.
  - reflexivity.
  - intros l e Hline Hne. unfold read_input, getline. cbn [unread at_eof].
    destruct l as [|c l]; [contradiction|].
    destruct (take_line (c :: l)) as [l1 r] eqn:E. cbn [fst] in Hline. subst l1.
    assert (r = []) as ->.
    { clear - E. revert r E. generalize (c :: l). intros s.
      induction s as [|x s IH]; intros r E; cbn [take_line] in E.
      - congruence.
      - destruct (x =? LF)%char.
        + injection E as E1 E2. destruct s; [congruence|discriminate].
        + destruct (take_line s) as [l' r'] eqn:E'.
          injection E as E1 E2. subst r'. apply IH. congruence. }
    destruct (to_int (Z.of_nat (length (c :: l))) =? -1); eexists; reflexivity.
Qed.

Lemma read_input_pairs_witness :
  read_pairs (mkFILE (text_bytes [str ">ACGT"; str "<ACGA"; str ">TT"] (str "<TA")) false)
  = Done [ mkPair (str ">ACGT" ++ [LF]) (str "<ACGA" ++ [LF]) 6 6;
           mkPair (str ">TT" ++ [LF]) (str "<TA") 4 3 ].
Proof.
  refine (proj1 (read_input_pairs [str ">ACGT"; str "<ACGA"; str ">TT"] (str "<TA")
                   _ _ _)).
  - repeat constructor.
  - reflexivity.
  - unfold fits, INT_MAX. repeat constructor; cbn; lia.
Defined.

End ReaderFacts.

(** * Properties of the driver *)

Module DriverFacts.
Import Edlib Stdio Reader Driver IntFacts.

Lemma strcmp_eq (a b : bytes) : strcmp a b = 0 <-> a = b.
Proof.
  revert b. induction a as [|x a IH]; intros [|y b]; cbn [strcmp];
    try (split; [discriminate|discriminate]); [tauto|].
  destruct (Ascii.eqb_spec x y) as [->|Hne].
  - rewrite IH. split; congruence.
  - split; [|congruence]. intros H. exfalso. apply Hne.
    assert (E : nat_of_ascii x = nat_of_ascii y) by lia.
    rewrite <- (ascii_nat_embedding x), <- (ascii_nat_embedding y), E.
    reflexivity.
Qed.

Lemma strcmp_eqb (a b : bytes) : (strcmp a b =? 0) = true <-> a = b.
Proof. rewrite Z.eqb_eq. apply strcmp_eq. Qed.

Lemma invalid_format_iff (f : bytes) :
  invalid_format f = true
  <-> f <> str "NICE" /\ f <> str "CIG_STD" /\ f <> str "CIG_EXT".
Proof.
  unfold invalid_format. rewrite !andb_true_iff, !negb_true_iff.
  rewrite <- !not_true_iff_false, !strcmp_eqb. tauto.
Qed.

Lemma modeCode_of_none (m : bytes) :
  modeCode_of m = None <-> m <> str "SHW" /\ m <> str "HW" /\ m <> str "NW".
Proof.
  unfold modeCode_of.
  destruct (strcmp m (str "SHW") =? 0) eqn:E1;
    [apply strcmp_eqb in E1; split; [discriminate|tauto]|].
  destruct (strcmp m (str "HW") =? 0) eqn:E2;
    [apply strcmp_eqb in E2; split; [discriminate|tauto]|].
  destruct (strcmp m (str "NW") =? 0) eqn:E3;
    [apply strcmp_eqb in E3; split; [discriminate|tauto]|].
  apply not_true_iff_false in E1, E2, E3. rewrite strcmp_eqb in E1, E2, E3.
  tauto.
Qed.

Lemma atoi_in_int (s : bytes) (n : Z) : atoi s = Done n -> in_int n = true.
Proof.
  unfold atoi. destruct (in_int _) eqn:E; [|discriminate].
  intros H. injection H as <-. exact E.
Qed.

(** The options that the loop leaves: [numRepeats] is an [int], and
    [invalidOption] tells whether getopt returned a value without a
    case. *)
Lemma switch_options (c : ascii) (optarg : bytes) (o o' : options) :
  switch c optarg o = Done o' ->
  (in_int (numRepeats o) = true -> in_int (numRepeats o') = true)
  /\ invalidOption o' = invalidOption o || negb (handled c).
Proof.
  unfold switch, handled. cbn [existsb str list_ascii_of_string].
  destruct (c =? "m")%char;
    [destruct (strcpy 16 optarg); cbn [bind]; try discriminate;
     intros H; injection H as <-; cbn; rewrite orb_false_r; auto|].
  destruct (c =? "n")%char;
    [destruct (atoi optarg); cbn [bind]; try discriminate;
     intros H; injection H as <-; cbn; rewrite orb_false_r; auto|].
  destruct (c =? "k")%char;
    [destruct (atoi optarg); cbn [bind]; try discriminate;
     intros H; injection H as <-; cbn; rewrite orb_false_r; auto|].
  destruct (c =? "f")%char;
    [destruct (strcpy 16 optarg); cbn [bind]; try discriminate;
     intros H; injection H as <-; cbn; rewrite orb_false_r; auto|].
  destruct (c =? "s")%char;
    [intros H; injection H as <-; cbn; rewrite orb_false_r; auto|].
  destruct (c =? "p")%char;
    [intros H; injection H as <-; cbn; rewrite orb_false_r; auto|].
  destruct (c =? "l")%char;
    [intros H; injection H as <-; cbn; rewrite orb_false_r; auto|].
  destruct (c =? "r")%char.
  - destruct (atoi optarg) as [n| |] eqn:E; cbn [bind]; try discriminate.
    intros H; injection H as <-; cbn. rewrite orb_false_r.
    split; [|reflexivity]. intros _. exact (atoi_in_int _ _ E).
  - intros H; injection H as <-; cbn. rewrite orb_true_r. auto.
Qed.

Lemma getopt_loop_options (returned : list (ascii * bytes)) (o o' : options) :
  getopt_loop returned o = Done o' ->
  (in_int (numRepeats o) = true -> in_int (numRepeats o') = true)
  /\ invalidOption o'
     = invalidOption o || existsb (fun r => negb (handled (fst r))) returned.
Proof.
  revert o. induction returned as [|[c optarg] returned IH]; intros o.
  - cbn. intros H. injection H as <-. rewrite orb_false_r. auto.
  - cbn [getopt_loop existsb fst].
    destruct (switch c optarg o) as [o1| |] eqn:E; cbn [bind]; try discriminate.
    intros H. destruct (switch_options _ _ _ _ E) as [H1 H2].
    destruct (IH _ H) as [H3 H4]. split; [auto|].
    rewrite H4, H2, orb_assoc. reflexivity.
Qed.

Section Engine.

Variable EdlibAlignConfig : Type.
Variable EdlibAlignResult : Type.
Variable edlibNewAlignConfig :
  Z -> EdlibAlignMode -> EdlibAlignTask -> option (list (ascii * ascii)) -> Z ->
  EdlibAlignConfig.
Variable edlibAlign :
  bytes -> Z -> bytes -> Z -> EdlibAlignConfig -> EdlibAlignResult.
Variable getopt : list bytes -> list (ascii * bytes) * Z.
Variable fs : filesystem.
Variables start finish : Z.

Local Abbreviation event := (Driver.event EdlibAlignConfig EdlibAlignResult).
Local Abbreviation for_rep :=
  (Driver.for_rep EdlibAlignConfig EdlibAlignResult edlibNewAlignConfig edlibAlign).
Local Abbreviation while_read_input :=
  (Driver.while_read_input EdlibAlignConfig EdlibAlignResult
     edlibNewAlignConfig edlibAlign).
Local Abbreviation run :=
  (Driver.run EdlibAlignConfig EdlibAlignResult edlibNewAlignConfig edlibAlign
     fs start finish).
Local Abbreviation main :=
  (Driver.main EdlibAlignConfig EdlibAlignResult edlibNewAlignConfig edlibAlign
     getopt fs start finish).
Local Abbreviation request :=
  (Driver.request EdlibAlignConfig EdlibAlignResult edlibNewAlignConfig).
Local Abbreviation repetition :=
  (Driver.repetition EdlibAlignConfig EdlibAlignResult edlibNewAlignConfig
     edlibAlign).
Local Abbreviation pair_events :=
  (Driver.pair_events EdlibAlignConfig EdlibAlignResult edlibNewAlignConfig
     edlibAlign).
Local Abbreviation before_pairs :=
  (Driver.before_pairs EdlibAlignConfig EdlibAlignResult).
Local Abbreviation after_pairs :=
  (Driver.after_pairs EdlibAlignConfig EdlibAlignResult start finish).
Local Abbreviation accepts := (Driver.accepts getopt).

Lemma for_rep_done (k : Z) (m : EdlibAlignMode) (a : EdlibAlignTask)
    (p : pair) (n : Z) (fuel : nat) :
  forall rep,
    0 <= rep -> n <= INT_MAX -> lengths_ok p ->
    (Z.to_nat (n - rep) <= fuel)%nat ->
    for_rep fuel rep n (line1 p) (line1_length p) (line2 p) (line2_length p)
      k m a
    = Done (concat (repeat (repetition k m a p) (Z.to_nat (n - rep)))).
Proof.
  induction fuel as [|fuel IH]; intros rep Hrep Hn [Hq Ht] Hfuel.
  - cbn [Driver.for_rep].
    destruct (Z.ltb_spec rep n); [lia|].
    replace (Z.to_nat (n - rep)) with O by lia. reflexivity.
  - cbn [Driver.for_rep].
    destruct (Z.ltb_spec rep n) as [Hlt|Hge].
    + unfold int_sub, int_add. rewrite Hq, Ht. cbn [bind].
      assert (Hin : in_int (rep + 1) = true).
      { apply in_int_iff. unfold INT_MIN, INT_MAX in *. lia. }
      rewrite Hin. cbn [bind].
      rewrite IH by (try split; auto; lia). cbn [bind].
      replace (Z.to_nat (n - rep)) with (S (Z.to_nat (n - (rep + 1)))) by lia.
      reflexivity.
    + replace (Z.to_nat (n - rep)) with O by lia. reflexivity.
Qed.

(** The loop of [main] calls the engine for the pairs that the reader
    returns, in their order. *)
Lemma while_read_input_events (k : Z) (m : EdlibAlignMode) (a : EdlibAlignTask)
    (n : Z) (fuel : nat) :
  forall (f : FILE) (ps : list pair),
    read_all fuel f = Done ps ->
    Forall lengths_ok ps -> n <= INT_MAX ->
    while_read_input fuel (Some f) n k m a
    = Done (concat (map (pair_events (Z.to_nat n) k m a) ps)).
Proof.
  induction fuel as [|fuel IH]; intros f ps Hread Hok Hn.
  - cbn [read_all Driver.while_read_input] in *.
    destruct (read_input (Some f)) as [[[p|] f']| |]; cbn [bind] in *;
      try discriminate.
    injection Hread as <-. reflexivity.
  - cbn [read_all Driver.while_read_input] in *.
    destruct (read_input (Some f)) as [[[p|] f']| |]; cbn [bind] in *;
      try discriminate.
    + destruct (read_all fuel f') as [ps'| |] eqn:E; cbn [bind] in *;
        try discriminate.
      injection Hread as <-. inversion Hok as [|? ? Hp Hok']; subst.
      pose proof (for_rep_done k m a p n (Z.to_nat n) 0) as Hrep.
      rewrite Z.sub_0_r in Hrep. rewrite Hrep by (auto; lia). cbn [bind].
      rewrite (IH f' ps' E Hok' Hn). cbn [bind map concat].
      unfold Driver.pair_events. rewrite <- app_assoc. reflexivity.
    + injection Hread as <-. reflexivity.
Qed.

Lemma lengths_ok_pair_up (ls : list bytes) :
  Forall fits ls -> Forall lengths_ok (pair_up ls).
Proof.
  induction ls as [ls IH] using (induction_ltof1 _ (@length bytes)).
  destruct ls as [|l1 [|l2 ls]]; intros H; try constructor.
  - inversion H as [|? ? H1 H']; subst. inversion H' as [|? ? H2 H'']; subst.
    unfold lengths_ok, fits in *. cbn [line1_length line2_length].
    rewrite !in_int_iff. unfold INT_MIN, INT_MAX in *. lia.
  - apply IH.
    + unfold ltof. cbn. lia.
    + inversion H as [|? ? H1 H']; subst. inversion H'; assumption.
Qed.

(** [main] on a command line that passes its checks. *)
Lemma main_accepted (argv : list bytes) (o : options) (m : EdlibAlignMode)
    (path : bytes) :
  accepts argv o m path ->
  in_int (numRepeats o) = true
  /\ main argv
     = (pairs <- while_read_input (fuel_of (fopen fs path)) (fopen fs path)
                   (numRepeats o) (kArg o) m (alignTask_of o) ;;
        Done (0, before_pairs o path ++ pairs ++ after_pairs))%result.
Proof.
  intros [returned [optind [Hg [Hloop [Hind [Hinv [Hfmt [Hmode Hpath]]]]]]]].
  split.
  - apply (getopt_loop_options _ _ _ Hloop). reflexivity.
  - unfold Driver.main. rewrite Hg, Hloop. cbn [bind]. unfold Driver.run.
    rewrite Hind, Z.eqb_refl, Hinv, Hfmt, Hmode, Hpath. reflexivity.
Qed.

Lemma filter_concat_map {A B : Type} (f : B -> bool) (g : A -> list B) (l : list A) :
  filter f (concat (map g l)) = concat (map (fun x => filter f (g x)) l).
Proof.
  induction l as [|x l IH]; [reflexivity|].
  cbn [map concat]. rewrite filter_app, IH. reflexivity.
Qed.

Lemma filter_align_pair_events (n : nat) (k : Z) (m : EdlibAlignMode)
    (a : EdlibAlignTask) (p : pair) :
  filter (@is_align _ _) (pair_events n k m a p) = repeat (request k m a p) n.
Proof.
  unfold Driver.pair_events. rewrite filter_app. cbn [filter is_align].
  rewrite app_nil_r. induction n as [|n IH]; [reflexivity|].
  cbn [repeat concat]. rewrite filter_app, IH. reflexivity.
Qed.

Lemma filter_report_pair_events (n : nat) (k : Z) (m : EdlibAlignMode)
    (a : EdlibAlignTask) (p : pair) :
  filter (@is_timing_report _ _) (pair_events n k m a p) = [].
Proof.
  unfold Driver.pair_events. rewrite filter_app. cbn [filter is_timing_report].
  rewrite app_nil_r. induction n as [|n IH]; [reflexivity|].
  cbn [repeat concat]. rewrite filter_app, IH. reflexivity.
Qed.

(** [main] on a command line that passes its checks and names a file of
    lines. *)
Lemma main_on_lines (argv : list bytes) (o : options) (m : EdlibAlignMode)
    (path : bytes) (bodies : list bytes) (last : bytes) :
  accepts argv o m path ->
  fs path = Some (text_bytes bodies last) ->
  Forall (fun b => no_line_feed b = true) bodies ->
  no_line_feed last = true ->
  Forall fits (text_lines bodies last) ->
  main argv
  = Done (0, before_pairs o path
             ++ concat (map (pair_events (Z.to_nat (numRepeats o)) (kArg o) m
                               (alignTask_of o))
                          (pair_up (text_lines bodies last)))
             ++ after_pairs).
Proof.
  intros Hacc Hfile Hb Hl Hfit.
  destruct (main_accepted _ _ _ _ Hacc) as [Hn ->].
  unfold fopen. rewrite Hfile. cbn [fuel_of unread].
  rewrite (while_read_input_events _ _ _ _ _ _
             (pair_up (text_lines bodies last))).
  - reflexivity.
  - apply ReaderFacts.read_all_lines; auto.
  - apply lengths_ok_pair_up. assumption.
  - apply in_int_iff in Hn. tauto.
Qed.

(** *** The file that cannot be opened *)

(** C2 is not what the program does: on a command line that passes the
    checks and names a file that cannot be opened, [main] hands the null
    stream to [read_input], whose getline is undefined on it; no error
    is reported and no exit code is chosen. *)
Theorem missing_file_undefined (argv : list bytes) (o : options)
    (m : EdlibAlignMode) (path : bytes) :
  accepts argv o m path ->
  fs path = None ->
  main argv = Undefined.
Proof.
  intros Hacc Hfile. destruct (main_accepted _ _ _ _ Hacc) as [_ ->].
  unfold fopen. rewrite Hfile. reflexivity.
Qed.

(** *** The calls of the engine *)

(** C3: for every pair that the reader returns, [main] calls the engine
    [numRepeats] times with the same request, whose buffers are the two
    lines without their first byte and whose lengths are the lengths of
    the lines minus 1, and releases the result after each call; the one
    timing report is printed after the calls for all pairs. *)
Theorem engine_called_for_every_pair (argv : list bytes) (o : options)
    (m : EdlibAlignMode) (path : bytes) (bodies : list bytes) (last : bytes) :
  accepts argv o m path ->
  fs path = Some (text_bytes bodies last) ->
  Forall (fun b => no_line_feed b = true) bodies ->
  no_line_feed last = true ->
  Forall fits (text_lines bodies last) ->
  let n := Z.to_nat (numRepeats o) in
  let pairs := pair_up (text_lines bodies last) in
  exists events,
    read_pairs (mkFILE (text_bytes bodies last) false) = Done pairs
    /\ main argv = Done (0, events)
    /\ events
       = before_pairs o path
         ++ concat (map (fun p =>
                      concat (repeat
                        [ Align (tl (line1 p)) (line1_length p - 1)
                                (tl (line2 p)) (line2_length p - 1)
                                (edlibNewAlignConfig (kArg o) m (alignTask_of o) None 0);
                          FreeAlignResult
                            (edlibAlign (tl (line1 p)) (line1_length p - 1)
                               (tl (line2 p)) (line2_length p - 1)
                               (edlibNewAlignConfig (kArg o) m (alignTask_of o) None 0)) ]
                        n)
                      ++ [Free (line1 p); Free (line2 p)]) pairs)
         ++ after_pairs
    /\ length (filter (@is_align _ _) events) = (n * length pairs)%nat
    /\ filter (@is_timing_report _ _) events
       = [ Stdout (Printf (LF :: line "Cpu time of searching: %lf")
                     [ArgSeconds (finish - start)]) ].
Proof.
  intros Hacc Hfile Hb Hl Hfit n pairs.
  eexists. split; [|split; [|split; [reflexivity|split]]].
  - unfold read_pairs. apply ReaderFacts.read_all_lines; auto.
  - exact (main_on_lines _ _ _ _ _ _ Hacc Hfile Hb Hl Hfit).
  - rewrite !filter_app. cbn [filter before_pairs after_pairs is_align app].
    rewrite app_nil_r.
    change (fun p : pair => _) with (pair_events n (kArg o) m (alignTask_of o)).
    rewrite filter_concat_map.
    induction pairs as [|p ps IH]; [cbn; lia|].
    cbn [map concat]. rewrite length_app, IH, filter_align_pair_events.
    rewrite repeat_length. cbn [length]. lia.
  - rewrite !filter_app. cbn [filter before_pairs after_pairs is_timing_report app].
    change (fun p : pair => _) with (pair_events n (kArg o) m (alignTask_of o)).
    rewrite filter_concat_map.
    replace (concat (map _ pairs)) with (@nil event); [reflexivity|].
    induction pairs as [|p ps IH]; [reflexivity|].
    cbn [map concat]. rewrite <- IH, filter_report_pair_events. reflexivity.
Qed.

(** *** The command lines that are rejected *)

(** C8 (amended): [main] returns 1, having only printed, when getopt
    reports an option without a case, when the number of operands is not
    one (a second path is such a case), when the -f string is none of
    NICE, CIG_STD, CIG_EXT and when the -m string is none of SHW, HW, NW;
    this for option arguments that the loop over the options stores
    within their arrays and converts within [int]. *)
Theorem rejected_command_lines (argv : list bytes)
    (returned : list (ascii * bytes)) (optind : Z) (o : options) :
  getopt argv = (returned, optind) ->
  getopt_loop returned initial = Done o ->
  argv <> [] ->
  optind + 1 <> Z.of_nat (length argv)
  \/ existsb (fun r => negb (handled (fst r))) returned = true
  \/ (alignmentFormat o <> str "NICE" /\ alignmentFormat o <> str "CIG_STD"
      /\ alignmentFormat o <> str "CIG_EXT")
  \/ (mode o <> str "SHW" /\ mode o <> str "HW" /\ mode o <> str "NW") ->
  exists events,
    main argv = Done (1, events)
    /\ existsb (@is_computation _ _) events = false.
Proof.
  intros Hg Hloop Hargv Hbad.
  unfold Driver.main. rewrite Hg, Hloop. cbn [bind]. unfold Driver.run.
  destruct (getopt_loop_options _ _ _ Hloop) as [_ Hinv]. cbn [initial invalidOption orb] in Hinv.
  destruct argv as [|argv0 argv]; [contradiction|].
  destruct (negb (optind + 1 =? Z.of_nat (length (argv0 :: argv)))
            || invalidOption o) eqn:Eusage.
  - cbn [index Z.ltb Z.compare Z.to_nat nth_error bind].
    eexists. split; [reflexivity|]. reflexivity.
  - apply orb_false_iff in Eusage. destruct Eusage as [E1 E2].
    apply negb_false_iff, Z.eqb_eq in E1.
    destruct Hbad as [H|[H|[H|H]]]; [contradiction|congruence| |].
    + apply invalid_format_iff in H. rewrite H.
      eexists. split; reflexivity.
    + destruct (invalid_format (alignmentFormat o));
        [eexists; split; reflexivity|].
      apply modeCode_of_none in H. rewrite H.
      eexists. split; reflexivity.
Qed.

(** *** The option -n *)

(** Nothing after the loop over the options reads [numBestSeqs]. *)
Lemma run_ignores_numBestSeqs (argv : list bytes) (optind : Z) (o : options)
    (N : Z) :
  run argv optind
    (mkOptions (silent o) (mode o) N (findAlignment o) (findStartLocations o)
       (kArg o) (numRepeats o) (alignmentFormat o) (invalidOption o))
  = run argv optind o.
Proof. reflexivity. Qed.

(** *** The buffers that the engine sees *)

Lemma pair_up_lengths (ls : list bytes) (p : pair) :
  In p (pair_up ls) ->
  line1_length p = Z.of_nat (length (line1 p))
  /\ line2_length p = Z.of_nat (length (line2 p)).
Proof.
  induction ls as [ls IH] using (induction_ltof1 _ (@length bytes)).
  destruct ls as [|l1 [|l2 ls]]; cbn [pair_up In]; try contradiction.
  intros [<-|Hin]; [split; reflexivity|].
  apply (IH ls); [unfold ltof; cbn; lia|assumption].
Qed.

(** C10 (amended): a line with at least one byte before its line feed is
    passed to the engine without its first byte and with its line feed,
    the length passed being the length of the line minus 1, which counts
    the line feed. *)
Theorem passed_buffers_keep_line_feed (argv : list bytes) (o : options)
    (m : EdlibAlignMode) (path : bytes) (bodies : list bytes) (last : bytes) :
  accepts argv o m path ->
  fs path = Some (text_bytes bodies last) ->
  Forall (fun b => no_line_feed b = true) bodies ->
  no_line_feed last = true ->
  Forall fits (text_lines bodies last) ->
  let n := Z.to_nat (numRepeats o) in
  let pairs := pair_up (text_lines bodies last) in
  let config := edlibNewAlignConfig (kArg o) m (alignTask_of o) None 0 in
  exists events,
    main argv = Done (0, events)
    /\ filter (@is_align _ _) events
       = concat (map (fun p =>
                   repeat (Align (tl (line1 p)) (line1_length p - 1)
                                 (tl (line2 p)) (line2_length p - 1) config) n)
                   pairs)
    /\ forall p, In p pairs ->
         (forall c body, line1 p = c :: body ++ [LF] ->
            tl (line1 p) = body ++ [LF]
            /\ line1_length p - 1 = Z.of_nat (length (body ++ [LF])))
         /\ (forall c body, line2 p = c :: body ++ [LF] ->
               tl (line2 p) = body ++ [LF]
               /\ line2_length p - 1 = Z.of_nat (length (body ++ [LF]))).
Proof.
  intros Hacc Hfile Hb Hl Hfit n pairs config.
  eexists. split; [|split].
  - exact (main_on_lines _ _ _ _ _ _ Hacc Hfile Hb Hl Hfit).
  - rewrite !filter_app. cbn [filter before_pairs after_pairs is_align app].
    rewrite app_nil_r, filter_concat_map.
    fold n. fold pairs. clearbody pairs.
    induction pairs as [|p ps IH]; [reflexivity|].
    cbn [map concat]. rewrite IH, filter_align_pair_events. reflexivity.
  - intros p Hin. destruct (pair_up_lengths _ _ Hin) as [H1 H2].
    split; intros c body E; rewrite E in *; cbn [tl];
      (split; [reflexivity|]).
    + rewrite H1. cbn [length]. lia.
    + rewrite H2. cbn [length]. lia.
Qed.

End Engine.

(** *** The program of the examples *)

Import Examples.

Lemma accepts_pairs_txt :
  accepts Getopt.getopt [str "aligner"; pairs_txt] initial EDLIB_MODE_NW pairs_txt.
Proof.
  exists [], 1. repeat split.
Defined.

Lemma accepts_other_txt :
  accepts Getopt.getopt [str "aligner"; str "other.txt"] initial EDLIB_MODE_NW
    (str "other.txt").
Proof.
  exists [], 1. repeat split.
Defined.

Lemma missing_file_undefined_witness :
  files (str "other.txt") = None
  /\ aligner files [str "aligner"; str "other.txt"] = Undefined.
Proof.
  split; [reflexivity|].
  exact (missing_file_undefined config unit new_config align Getopt.getopt
           files 0 0 _ _ _ _ accepts_other_txt eq_refl).
Defined.

Lemma two_pairs_fit :
  Forall fits (text_lines [str ">ACGT"; str "<ACGA"; str ">TT"; str "<TA"] []).
Proof. unfold fits, INT_MAX. repeat constructor; cbn; lia. Defined.

Lemma two_pairs_lines :
  Forall (fun b => no_line_feed b = true)
    [str ">ACGT"; str "<ACGA"; str ">TT"; str "<TA"].
Proof. repeat constructor. Defined.

Lemma accepts_five_repeats :
  accepts Getopt.getopt [str "aligner"; str "-r"; str "5"; pairs_txt]
    (mkOptions false (str "NW") 0 false false (-1) 5 (str "NICE") false)
    EDLIB_MODE_NW pairs_txt.
Proof.
  exists [("r"%char, str "5")], 3. repeat split.
Defined.

Lemma engine_called_for_every_pair_witness :
  exists events,
    aligner files [str "aligner"; str "-r"; str "5"; pairs_txt]
    = Done (0, events)
    /\ length (filter (@is_align _ _) events) = 10%nat
    /\ length (filter (@is_timing_report _ _) events) = 1%nat.
Proof.
  destruct (engine_called_for_every_pair config unit new_config align
              Getopt.getopt files 0 0 _ _ _ _ _ _
              accepts_five_repeats eq_refl two_pairs_lines eq_refl two_pairs_fit)
    as [events [_ [H1 [_ [H2 H3]]]]].
  exists events. split; [exact H1|]. split; [exact H2|].
  rewrite H3. reflexivity.
Defined.

(** C8, as stated, fails: a second path on the command line is a usage
    error, even when both files exist. *)
Lemma second_path_rejected :
  aligner (fun _ => Some two_pairs)
    [str "aligner"; str "queries.fasta"; str "target.fasta"]
  = Done (1, map Stderr (usage (str "aligner"))).
Proof. vm_compute. reflexivity. Qed.

(** A mode of 16 bytes does not fit the array that it is copied to. *)
Example long_mode_undefined :
  aligner files [str "aligner"; str "-m"; str "0123456789abcdef"; pairs_txt]
  = Undefined.
Proof. vm_compute. reflexivity. Qed.

Lemma rejected_command_lines_witness :
  exists events,
    aligner files [str "aligner"; str "-m"; str "XW"; pairs_txt]
    = Done (1, events)
    /\ existsb (@is_computation _ _) events = false.
Proof.
  refine (rejected_command_lines config unit new_config align Getopt.getopt
            files 0 0 [str "aligner"; str "-m"; str "XW"; pairs_txt]
            [("m"%char, str "XW")] 3
            (mkOptions false (str "XW") 0 false false (-1) 1 (str "NICE") false)
            eq_refl eq_refl _ _).
  - discriminate.
  - right. right. right. repeat split; discriminate.
Defined.

(** C9 is not what the program does: with -n 1 and a file of two pairs
    the engine is called for both pairs, with the cutoff -1, as without
    the option. *)
Theorem best_sequences_not_selected :
  aligner files [str "aligner"; str "-n"; str "1"; pairs_txt]
  = aligner files [str "aligner"; pairs_txt]
  /\ exists events,
       aligner files [str "aligner"; str "-n"; str "1"; pairs_txt]
       = Done (0, events)
       /\ filter (@is_align _ _) events
          = [ Align (str "ACGT" ++ [LF]) 5 (str "ACGA" ++ [LF]) 5
                (-1, EDLIB_MODE_NW, EDLIB_TASK_DISTANCE);
              Align (str "TT" ++ [LF]) 3 (str "TA" ++ [LF]) 3
                (-1, EDLIB_MODE_NW, EDLIB_TASK_DISTANCE) ].
Proof.
  split; [vm_compute; reflexivity|].
  eexists. split; vm_compute; reflexivity.
Qed.

(** C10, as stated, fails: of a line that is a line feed only, the byte
    that is dropped is the line feed, and the engine gets an empty
    buffer. *)
Lemma empty_line_loses_line_feed :
  exists events,
    aligner (single_file pairs_txt [LF; LF]) [str "aligner"; pairs_txt]
    = Done (0, events)
    /\ filter (@is_align _ _) events
       = [ Align [] 0 [] 0 (-1, EDLIB_MODE_NW, EDLIB_TASK_DISTANCE) ].
Proof. eexists. split; vm_compute; reflexivity. Qed.

Lemma passed_buffers_keep_line_feed_witness :
  exists events,
    aligner files [str "aligner"; pairs_txt] = Done (0, events)
    /\ filter (@is_align _ _) events
       = [ Align (str "ACGT" ++ [LF]) 5 (str "ACGA" ++ [LF]) 5
             (-1, EDLIB_MODE_NW, EDLIB_TASK_DISTANCE);
           Align (str "TT" ++ [LF]) 3 (str "TA" ++ [LF]) 3
             (-1, EDLIB_MODE_NW, EDLIB_TASK_DISTANCE) ].
Proof.
  destruct (passed_buffers_keep_line_feed config unit new_config align
              Getopt.getopt files 0 0 _ _ _ _ _ _
              accepts_pairs_txt eq_refl two_pairs_lines eq_refl two_pairs_fit)
    as [events [H1 [H2 _]]].
  exists events. split; [exact H1|exact H2].
Defined.

End DriverFacts.

(** * Properties of the renderer *)

Module RenderFacts.
Import Edlib Stdio Render Ranges Coordinates IntFacts.

Lemma int_add_done (a b : Z) :
  INT_MIN <= a + b <= INT_MAX -> int_add a b = Done (a + b).
Proof. intros H. unfold int_add. apply in_int_iff in H. rewrite H. reflexivity. Qed.

Lemma int_sub_done (a b : Z) :
  INT_MIN <= a - b <= INT_MAX -> int_sub a b = Done (a - b).
Proof. intros H. unfold int_sub. apply in_int_iff in H. rewrite H. reflexivity. Qed.

Lemma count_cons (gap op : Z) (s : list Z) :
  count gap (op :: s) = (if takes gap op then 1 else 0) + count gap s.
Proof.
  unfold count. cbn [filter]. destruct (takes gap op); cbn [length]; lia.
Qed.

Lemma count_app (gap : Z) (a b : list Z) :
  count gap (a ++ b) = count gap a + count gap b.
Proof. unfold count. rewrite filter_app, length_app. lia. Qed.

Lemma count_nonneg (gap : Z) (s : list Z) : 0 <= count gap s.
Proof. unfold count. lia. Qed.

Lemma index_app_cons {A : Type} (pre : list A) (a : A) (suf : list A) :
  index (pre ++ a :: suf) (Z.of_nat (length pre)) = Done a.
Proof.
  unfold index. destruct (Z.ltb_spec (Z.of_nat (length pre)) 0); [lia|].
  rewrite Nat2Z.id, nth_error_app2, Nat.sub_diag by lia. reflexivity.
Qed.

Lemma index_in_bounds (buffer : bytes) (i : Z) :
  0 <= i < Z.of_nat (length buffer) ->
  index buffer i = Done (nth (Z.to_nat i) buffer "000"%char).
Proof.
  intros H. unfold index. destruct (Z.ltb_spec i 0); [lia|].
  destruct (nth_error buffer (Z.to_nat i)) as [c|] eqn:E.
  - rewrite (nth_error_nth _ _ _ E). reflexivity.
  - apply nth_error_None in E. lia.
Qed.

Section Loops.

Variables (gap : Z) (buffer : bytes) (alignment : list Z) (alignmentLength : Z).
Hypothesis length_ok : alignmentLength = Z.of_nat (length alignment).

Local Abbreviation sequence_loop :=
  (Render.target_loop gap buffer alignment alignmentLength).

Lemma sequence_loop_window (w : list Z) :
  forall (pre post : list Z) (fuel : nat) (start j tIdx startIdx : Z),
    alignment = pre ++ w ++ post ->
    j = Z.of_nat (length pre) ->
    0 <= start <= j ->
    j + Z.of_nat (length w) = start + 50
    \/ (j + Z.of_nat (length w) < start + 50 /\ post = []) ->
    (length w <= fuel)%nat ->
    start + 50 <= INT_MAX ->
    in_bounds gap buffer w tIdx ->
    sequence_loop fuel start j tIdx startIdx
    = Done (sequence_calls gap buffer w tIdx, tIdx + count gap w,
            match w with
            | [] => startIdx
            | _ :: _ =>
                if j =? start then tIdx + count gap (firstn 1 w) else startIdx
            end).
Proof.
  induction w as [|op w IH];
    intros pre post fuel start j tIdx startIdx Hal Hj Hstart Hend Hfuel Hmax Hin.
  - assert (Hcond : (j <? start + 50) && (j <? alignmentLength) = false).
    { apply andb_false_iff. rewrite !Z.ltb_ge.
      destruct Hend as [Hend|[Hend ->]]; [left; cbn in Hend; lia|right].
      rewrite length_ok, Hal, app_nil_r. cbn [app]. lia. }
    destruct fuel; cbn [target_loop];
      rewrite int_add_done by (unfold INT_MIN; lia); cbn [bind];
      rewrite Hcond; unfold count; cbn; rewrite Z.add_0_r; reflexivity.
  - destruct fuel as [|fuel]; [cbn in Hfuel; lia|].
    cbn [length] in Hend, Hfuel.
    assert (Hcond : (j <? start + 50) && (j <? alignmentLength) = true).
    { apply andb_true_iff. rewrite !Z.ltb_lt. split; [lia|].
      rewrite length_ok, Hal, !length_app. cbn [length]. lia. }
    cbn [target_loop]. rewrite int_add_done by (unfold INT_MIN; lia).
    cbn [bind]. rewrite Hcond.
    assert (Hidx : index alignment j = Done op)
      by (rewrite Hal, Hj; apply (index_app_cons pre op (w ++ post))).
    rewrite Hidx. cbn [bind].
    destruct Hin as [Hlo [Hhi Hint]]. rewrite count_cons in Hhi, Hint.
    pose proof (count_nonneg gap w) as Hnn.
    cbn [sequence_calls firstn]. rewrite !count_cons. unfold takes in *.
    assert (Hnext : alignment = (pre ++ [op]) ++ w ++ post)
      by (rewrite <- app_assoc; exact Hal).
    assert (Hj' : j + 1 = Z.of_nat (length (pre ++ [op])))
      by (rewrite length_app; cbn [length]; lia).
    assert (Hne : (j + 1 =? start) = false) by (apply Z.eqb_neq; lia).
    assert (Hend' : j + 1 + Z.of_nat (length w) = start + 50
                    \/ (j + 1 + Z.of_nat (length w) < start + 50 /\ post = []))
      by (destruct Hend as [Hend|[Hend Hpost]]; [left|right; split]; auto; lia).
    destruct (op =? gap); cbn [negb bind] in *.
    + rewrite int_add_done by (unfold INT_MIN; lia). cbn [bind].
      rewrite (IH (pre ++ [op]) post fuel start (j + 1) tIdx
                 (if j =? start then tIdx else startIdx))
        by (auto; try lia; unfold in_bounds; lia).
      cbn [bind]. rewrite Hne.
      replace (tIdx + (0 + count gap w)) with (tIdx + count gap w) by lia.
      replace (tIdx + (0 + count gap [])) with tIdx
        by (unfold count; cbn; lia).
      destruct w; reflexivity.
    + rewrite int_add_done by (unfold INT_MIN; lia). cbn [bind].
      rewrite index_in_bounds by lia. cbn [bind].
      rewrite int_add_done by (unfold INT_MIN; lia). cbn [bind].
      rewrite (IH (pre ++ [op]) post fuel start (j + 1) (tIdx + 1)
                 (if j =? start then tIdx + 1 else startIdx))
        by (auto; try lia; unfold in_bounds; lia).
      cbn [bind]. rewrite Hne.
      replace (tIdx + (1 + count gap w)) with (tIdx + 1 + count gap w) by lia.
      replace (tIdx + (1 + count gap [])) with (tIdx + 1)
        by (unfold count; cbn; lia).
      destruct w; reflexivity.
Qed.

End Loops.

Section Marks.

Variables (EDLIB_EDOP_MATCH : Z) (alignment : list Z) (alignmentLength : Z).
Hypothesis length_ok : alignmentLength = Z.of_nat (length alignment).

Lemma marker_loop_window (w : list Z) :
  forall (pre post : list Z) (fuel : nat) (start j : Z),
    alignment = pre ++ w ++ post ->
    j = Z.of_nat (length pre) ->
    0 <= start <= j ->
    j + Z.of_nat (length w) = start + 50
    \/ (j + Z.of_nat (length w) < start + 50 /\ post = []) ->
    (length w <= fuel)%nat ->
    start + 50 <= INT_MAX ->
    marker_loop EDLIB_EDOP_MATCH alignment alignmentLength fuel start j
    = Done (marker_calls EDLIB_EDOP_MATCH w).
Proof.
  induction w as [|op w IH];
    intros pre post fuel start j Hal Hj Hstart Hend Hfuel Hmax.
  - assert (Hcond : (j <? start + 50) && (j <? alignmentLength) = false).
    { apply andb_false_iff. rewrite !Z.ltb_ge.
      destruct Hend as [Hend|[Hend ->]]; [left; cbn in Hend; lia|right].
      rewrite length_ok, Hal, app_nil_r. cbn [app]. lia. }
    destruct fuel; cbn [marker_loop];
      rewrite int_add_done by (unfold INT_MIN; lia); cbn [bind];
      rewrite Hcond; reflexivity.
  - destruct fuel as [|fuel]; [cbn in Hfuel; lia|].
    cbn [length] in Hend, Hfuel.
    assert (Hcond : (j <? start + 50) && (j <? alignmentLength) = true).
    { apply andb_true_iff. rewrite !Z.ltb_lt. split; [lia|].
      rewrite length_ok, Hal, !length_app. cbn [length]. lia. }
    cbn [marker_loop]. rewrite int_add_done by (unfold INT_MIN; lia).
    cbn [bind]. rewrite Hcond.
    assert (Hidx : index alignment j = Done op)
      by (rewrite Hal, Hj; apply (index_app_cons pre op (w ++ post))).
    rewrite Hidx. cbn [bind].
    rewrite int_add_done by (unfold INT_MIN; lia). cbn [bind].
    rewrite (IH (pre ++ [op]) post fuel start (j + 1)); try lia.
    + reflexivity.
    + rewrite <- app_assoc. exact Hal.
    + rewrite length_app. cbn [length]. lia.
    + destruct Hend as [Hend|[Hend Hpost]]; [left|right; split]; auto; lia.
Qed.

End Marks.

Lemma query_loop_target_loop :
  Render.query_loop = Render.target_loop.
Proof. reflexivity. Qed.

Section Windows.

Variables EDLIB_EDOP_MATCH EDLIB_EDOP_INSERT EDLIB_EDOP_DELETE : Z.
Variables query target : bytes.
Variable alignment : list Z.
Variables alignmentLength position : Z.
Hypothesis length_ok : alignmentLength = Z.of_nat (length alignment).

Local Abbreviation window_loop :=
  (Render.window_loop EDLIB_EDOP_MATCH EDLIB_EDOP_INSERT EDLIB_EDOP_DELETE
     query target alignment alignmentLength).
Local Abbreviation layout_calls :=
  (Render.layout_calls EDLIB_EDOP_MATCH EDLIB_EDOP_INSERT EDLIB_EDOP_DELETE
     query target).
Local Abbreviation window_calls :=
  (Render.window_calls EDLIB_EDOP_MATCH EDLIB_EDOP_INSERT EDLIB_EDOP_DELETE
     query target).
Local Abbreviation hw_loop :=
  (Render.hw_loop EDLIB_EDOP_INSERT alignment alignmentLength).

Lemma window_loop_end (fuel : nat) (start tIdx qIdx : Z) :
  alignmentLength <= start ->
  window_loop fuel start tIdx qIdx = Done [].
Proof.
  intros H. destruct fuel; cbn [Render.window_loop];
    destruct (Z.ltb_spec start alignmentLength); try lia; reflexivity.
Qed.

Lemma in_bounds_window (gap : Z) (buffer : bytes) (w rest : list Z) (cursor : Z) :
  in_bounds gap buffer (w ++ rest) cursor ->
  in_bounds gap buffer w cursor
  /\ in_bounds gap buffer rest (cursor + count gap w).
Proof.
  unfold in_bounds. rewrite count_app.
  pose proof (count_nonneg gap w). pose proof (count_nonneg gap rest). lia.
Qed.

Lemma window_loop_layout (fuel : nat) :
  forall (suf pre : list Z) (tIdx qIdx : Z),
    alignment = pre ++ suf ->
    (length suf <= fuel)%nat ->
    alignmentLength + 50 <= INT_MAX ->
    in_bounds EDLIB_EDOP_INSERT target suf tIdx ->
    in_bounds EDLIB_EDOP_DELETE query suf qIdx ->
    window_loop fuel (Z.of_nat (length pre)) tIdx qIdx
    = Done (layout_calls (windows fuel suf) tIdx qIdx).
Proof.
  induction fuel as [|fuel IH]; intros suf pre tIdx qIdx Hal Hfuel Hmax Ht Hq.
  - destruct suf; [|cbn in Hfuel; lia].
    rewrite window_loop_end; [reflexivity|].
    rewrite length_ok, Hal, app_nil_r. lia.
  - destruct suf as [|op suf].
    { rewrite window_loop_end; [reflexivity|].
      rewrite length_ok, Hal, app_nil_r. lia. }
    cbn [windows Render.layout_calls].
    remember (firstn 50 (op :: suf)) as w eqn:Hw.
    remember (skipn 50 (op :: suf)) as rest eqn:Hrest.
    assert (Hsplit : op :: suf = w ++ rest)
      by (subst w rest; symmetry; apply firstn_skipn).
    assert (Hwlen : (length w <= 50)%nat)
      by (subst w; apply firstn_le_length).
    assert (Hwpos : (0 < length w)%nat)
      by (subst w; rewrite length_firstn; cbn [length]; lia).
    assert (Hend : Z.of_nat (length pre) + Z.of_nat (length w)
                   = Z.of_nat (length pre) + 50
                   \/ (Z.of_nat (length pre) + Z.of_nat (length w)
                       < Z.of_nat (length pre) + 50 /\ rest = [])).
    { destruct (Nat.eq_dec (length w) 50) as [E|E]; [left; lia|right].
      split; [lia|]. subst rest. apply skipn_all2.
      subst w. rewrite length_firstn in E. lia. }
    rewrite Hsplit in Hal, Ht, Hq.
    destruct (in_bounds_window _ _ _ _ _ Ht) as [Htw Htr].
    destruct (in_bounds_window _ _ _ _ _ Hq) as [Hqw Hqr].
    assert (Hlen : Z.of_nat (length pre) < alignmentLength).
    { rewrite length_ok, Hal, !length_app. lia. }
    assert (Hstart50 : Z.of_nat (length pre) + 50 <= INT_MAX) by lia.
    cbn [Render.window_loop].
    destruct (Z.ltb_spec (Z.of_nat (length pre)) alignmentLength); [|lia].
    rewrite (sequence_loop_window EDLIB_EDOP_INSERT target alignment
               alignmentLength length_ok w pre rest 50);
      auto; try lia.
    cbn [bind].
    rewrite (marker_loop_window EDLIB_EDOP_MATCH alignment alignmentLength
               length_ok w pre rest 50);
      auto; try lia.
    cbn [bind]. rewrite query_loop_target_loop.
    rewrite (sequence_loop_window EDLIB_EDOP_DELETE query alignment
               alignmentLength length_ok w pre rest 50);
      auto; try lia.
    cbn [bind]. rewrite int_add_done by (unfold INT_MIN; lia). cbn [bind].
    assert (Hrestcall :
      window_loop fuel (Z.of_nat (length pre) + 50)
        (tIdx + count EDLIB_EDOP_INSERT w) (qIdx + count EDLIB_EDOP_DELETE w)
      = Done (layout_calls (windows fuel rest)
                (tIdx + count EDLIB_EDOP_INSERT w)
                (qIdx + count EDLIB_EDOP_DELETE w))).
    { destruct Hend as [Hend|[Hend Hnil]].
      - replace (Z.of_nat (length pre) + 50) with (Z.of_nat (length (pre ++ w)))
          by (rewrite length_app; lia).
        apply IH; auto.
        + rewrite <- app_assoc. exact Hal.
        + assert (length (op :: suf) = (length w + length rest)%nat)
            by (rewrite Hsplit, length_app; reflexivity).
          lia.
      - rewrite Hnil. rewrite window_loop_end.
        + destruct fuel; reflexivity.
        + rewrite length_ok, Hal, Hnil, app_nil_r, length_app. lia. }
    rewrite Hrestcall. cbn [bind]. rewrite Z.eqb_refl.
    destruct w as [|op' w']; [cbn in Hwpos; lia|].
    unfold Render.window_calls, printed_lower, printed_upper.
    rewrite <- !app_assoc. reflexivity.
Qed.

Lemma hw_loop_count (suf : list Z) :
  forall (pre : list Z) (fuel : nat) (tIdx : Z),
    alignment = pre ++ suf ->
    (length suf <= fuel)%nat ->
    alignmentLength <= INT_MAX ->
    INT_MIN <= tIdx - count EDLIB_EDOP_INSERT suf ->
    tIdx <= INT_MAX ->
    hw_loop fuel (Z.of_nat (length pre)) tIdx
    = Done (tIdx - count EDLIB_EDOP_INSERT suf).
Proof.
  induction suf as [|op suf IH]; intros pre fuel tIdx Hal Hfuel Hmax Hlo Hhi.
  - assert (Hcond : (Z.of_nat (length pre) <? alignmentLength) = false).
    { apply Z.ltb_ge. rewrite length_ok, Hal, app_nil_r. lia. }
    destruct fuel; cbn [Render.hw_loop]; rewrite Hcond;
      unfold count; cbn; rewrite Z.sub_0_r; reflexivity.
  - destruct fuel as [|fuel]; [cbn in Hfuel; lia|]. cbn [length] in Hfuel.
    assert (Hlen : Z.of_nat (length pre) < alignmentLength).
    { rewrite length_ok, Hal, !length_app. cbn [length]. lia. }
    cbn [Render.hw_loop].
    destruct (Z.ltb_spec (Z.of_nat (length pre)) alignmentLength); [|lia].
    assert (Hidx : index alignment (Z.of_nat (length pre)) = Done op)
      by (rewrite Hal; apply index_app_cons).
    rewrite Hidx. cbn [bind].
    rewrite count_cons in Hlo |- *. unfold takes in *.
    pose proof (count_nonneg EDLIB_EDOP_INSERT suf) as Hnn.
    assert (Hnext : alignment = (pre ++ [op]) ++ suf)
      by (rewrite <- app_assoc; exact Hal).
    assert (Hi : Z.of_nat (length pre) + 1 = Z.of_nat (length (pre ++ [op])))
      by (rewrite length_app; cbn [length]; lia).
    destruct (op =? EDLIB_EDOP_INSERT); cbn [negb bind] in *.
    + rewrite int_add_done by (unfold INT_MIN; lia). cbn [bind].
      rewrite Hi, (IH (pre ++ [op]) fuel tIdx) by (auto; lia).
      f_equal; lia.
    + rewrite int_sub_done by lia. cbn [bind].
      rewrite int_add_done by (unfold INT_MIN; lia). cbn [bind].
      rewrite Hi, (IH (pre ++ [op]) fuel (tIdx - 1)) by (auto; lia).
      f_equal; lia.
Qed.

End Windows.

(** *** The text of the calls *)

Lemma text_app (a b : list printf_call) :
  text (a ++ b)
  = match text a, text b with
    | Some x, Some y => Some (x ++ y)
    | _, _ => None
    end.
Proof.
  induction a as [|call a IH]; cbn [app text].
  - destruct (text b); reflexivity.
  - rewrite IH. destruct (written call), (text a), (text b); try reflexivity.
    rewrite app_assoc. reflexivity.
Qed.

Lemma text_sequence_calls (gap : Z) (buffer : bytes) (w : list Z) (cursor : Z) :
  text (sequence_calls gap buffer w cursor)
  = Some (sequence_line gap buffer w cursor).
Proof.
  revert cursor. induction w as [|op w IH]; intros cursor; [reflexivity|].
  cbn [sequence_calls sequence_line].
  destruct (takes gap op); cbn [text]; rewrite IH; reflexivity.
Qed.

Lemma text_marker_calls (M : Z) (w : list Z) :
  text (marker_calls M w) = Some (marker_line M w).
Proof.
  induction w as [|op w IH]; [reflexivity|].
  cbn [marker_calls marker_line map text]. fold (marker_calls M w).
  fold (marker_line M w). rewrite IH. destruct (op =? M); reflexivity.
Qed.

Lemma written_literal (fmt : bytes) :
  forallb (fun c => negb (c =? "%")%char) fmt = true ->
  written (Printf fmt []) = Some fmt.
Proof.
  unfold written. cbn [format arguments].
  induction fmt as [|c fmt IH]; intros H; [reflexivity|].
  cbn [forallb] in H. apply andb_true_iff in H. destruct H as [Hc H].
  cbn [sprintf]. destruct (c =? "%")%char; [discriminate|].
  rewrite IH by assumption. reflexivity.
Qed.

Lemma written_range (tail : bytes) (a b : Z) :
  forallb (fun c => negb (c =? "%")%char) tail = true ->
  written (Printf (range_format ++ tail) [ArgInt a; ArgInt b])
  = Some (str " (" ++ decimal a ++ str " - " ++ decimal b ++ str ")" ++ tail).
Proof.
  intros H. apply written_literal in H. unfold written in *.
  cbn [format arguments] in *.
  change (range_format ++ tail)
    with (str " (" ++ str "%d" ++ str " - " ++ str "%d" ++ ")"%char :: tail).
  cbn [str list_ascii_of_string app sprintf Ascii.eqb Bool.eqb option_map].
  rewrite H. cbn [option_map app]. reflexivity.
Qed.

Lemma text_window_calls (M I D : Z) (query target : bytes) (w : list Z)
    (tcursor qcursor : Z) :
  text (window_calls M I D query target w tcursor qcursor)
  = Some (window_text M I D query target w tcursor qcursor).
Proof.
  unfold window_calls, window_text, printed_range.
  rewrite !text_app, !text_sequence_calls, text_marker_calls.
  cbn [text]. rewrite !written_range, !written_literal by reflexivity.
  rewrite <- !app_assoc. reflexivity.
Qed.

Lemma text_layout_calls (M I D : Z) (query target : bytes) (ws : list (list Z)) :
  forall tcursor qcursor,
    text (layout_calls M I D query target ws tcursor qcursor)
    = Some (layout M I D query target ws tcursor qcursor).
Proof.
  induction ws as [|w ws IH]; intros tcursor qcursor; [reflexivity|].
  cbn [layout_calls layout]. rewrite text_app, text_window_calls, IH.
  reflexivity.
Qed.

(** *** The lower bounds of the ranges *)

Lemma lower_bounds_app (a b : list printf_call) :
  lower_bounds (a ++ b) = lower_bounds a ++ lower_bounds b.
Proof.
  induction a as [|[fmt args] a IH]; [reflexivity|].
  cbn [app lower_bounds]. rewrite IH.
  destruct args as [|[lo| | |] [|[hi| | |] [|? ?]]]; reflexivity.
Qed.

Lemma lower_bounds_sequence_calls (gap : Z) (buffer : bytes) (w : list Z)
    (cursor : Z) :
  lower_bounds (sequence_calls gap buffer w cursor) = [].
Proof.
  revert cursor. induction w as [|op w IH]; intros cursor; [reflexivity|].
  cbn [sequence_calls]. destruct (takes gap op); cbn [lower_bounds]; apply IH.
Qed.

Lemma lower_bounds_marker_calls (M : Z) (w : list Z) :
  lower_bounds (marker_calls M w) = [].
Proof. induction w as [|op w IH]; [reflexivity|]. exact IH. Qed.

Lemma lower_bounds_layout_calls (M I D : Z) (query target : bytes)
    (ws : list (list Z)) :
  forall tcursor qcursor,
    Forall (fun lo => 0 <= lo)
      (lower_bounds (layout_calls M I D query target ws tcursor qcursor)).
Proof.
  induction ws as [|w ws IH]; intros tcursor qcursor; [constructor|].
  cbn [layout_calls]. unfold window_calls.
  rewrite !lower_bounds_app, !lower_bounds_sequence_calls,
    lower_bounds_marker_calls.
  cbn [lower_bounds app]. unfold printed_lower.
  constructor; [lia|]. constructor; [lia|]. apply IH.
Qed.

(** The lower bound of a range is the index of the first symbol of the
    line when the window starts with an operation that takes a symbol;
    when it starts with a gap it is the index of the last symbol taken
    before the window, or 0 when no symbol was taken yet. *)
Lemma printed_lower_cases (gap op : Z) (w : list Z) (cursor : Z) :
  -1 <= cursor ->
  printed_lower gap (op :: w) cursor
  = if takes gap op then cursor + 1 else Z.max cursor 0.
Proof.
  intros H. unfold printed_lower. cbn [firstn]. rewrite count_cons.
  unfold count. cbn [filter length].
  destruct (takes gap op); lia.
Qed.

(** *** The windows *)

Lemma windows_nil (fuel : nat) : windows fuel [] = [].
Proof. destruct fuel; reflexivity. Qed.

Lemma windows_cut (fuel : nat) :
  forall script,
    (length script <= fuel)%nat ->
    concat (windows fuel script) = script
    /\ Forall (fun w => (1 <= length w <= 50)%nat) (windows fuel script)
    /\ (forall full w, windows fuel script = full ++ [w] ->
        Forall (fun x => length x = 50%nat) full).
Proof.
  induction fuel as [|fuel IH]; intros script Hfuel.
  - destruct script; [|cbn in Hfuel; lia].
    repeat split; [constructor|].
    intros full w E. destruct full; discriminate.
  - destruct script as [|op script].
    { repeat split; [constructor|]. intros full w E. destruct full; discriminate. }
    cbn [windows].
    remember (firstn 50 (op :: script)) as w eqn:Hw.
    remember (skipn 50 (op :: script)) as rest eqn:Hrest.
    assert (Hsplit : op :: script = w ++ rest)
      by (subst w rest; symmetry; apply firstn_skipn).
    assert (Hwlen : length w = Nat.min 50 (length (op :: script)))
      by (subst w; apply length_firstn).
    assert (Hrlen : length rest = (length (op :: script) - 50)%nat)
      by (subst rest; apply length_skipn).
    cbn [length] in Hwlen, Hrlen, Hfuel.
    destruct (IH rest) as [Hcat [Hsize Hfull]]; [lia|].
    split; [|split].
    + cbn [concat]. rewrite Hcat. symmetry. exact Hsplit.
    + constructor; [lia|exact Hsize].
    + intros full x E. destruct full as [|y full].
      * constructor.
      * cbn [app] in E. injection E as <- E. constructor.
        -- destruct rest as [|r rest'].
           ++ rewrite windows_nil in E. destruct full; discriminate.
           ++ cbn [length] in Hrlen. lia.
        -- exact (Hfull full x E).
Qed.

(** *** The ranges among the calls *)

Lemma ranges_app (fmt : bytes) (a b : list printf_call) :
  ranges fmt (a ++ b) = ranges fmt a ++ ranges fmt b.
Proof.
  induction a as [|[f args] a IH]; [reflexivity|].
  cbn [app ranges]. rewrite IH.
  destruct args as [|[lo| | |] [|[hi| | |] [|? ?]]]; try reflexivity.
  destruct (list_eq_dec ascii_dec f fmt); reflexivity.
Qed.

Lemma ranges_sequence_calls (fmt : bytes) (gap : Z) (buffer : bytes)
    (w : list Z) (cursor : Z) :
  ranges fmt (sequence_calls gap buffer w cursor) = [].
Proof.
  revert cursor. induction w as [|op w IH]; intros cursor; [reflexivity|].
  cbn [sequence_calls]. destruct (takes gap op); cbn [ranges]; apply IH.
Qed.

Lemma ranges_marker_calls (fmt : bytes) (M : Z) (w : list Z) :
  ranges fmt (marker_calls M w) = [].
Proof. induction w as [|op w IH]; [reflexivity|]. exact IH. Qed.

Lemma formats_differ : target_format <> query_format.
Proof.
  unfold target_format, query_format. intros E.
  apply app_inv_head in E. discriminate.
Qed.

Lemma ranges_window_calls (M I D : Z) (query target : bytes) (w : list Z)
    (t q : Z) :
  ranges target_format (window_calls M I D query target w t q)
  = [(printed_lower I w t, printed_upper I w t)]
  /\ ranges query_format (window_calls M I D query target w t q)
     = [(printed_lower D w q, printed_upper D w q)].
Proof.
  unfold window_calls.
  rewrite !ranges_app, !ranges_sequence_calls, !ranges_marker_calls.
  cbn [ranges app].
  fold target_format. fold query_format.
  destruct (list_eq_dec ascii_dec target_format target_format) as [_|N];
    [|contradiction].
  destruct (list_eq_dec ascii_dec query_format query_format) as [_|N];
    [|contradiction].
  destruct (list_eq_dec ascii_dec query_format target_format) as [E|_];
    [symmetry in E; destruct (formats_differ E)|].
  destruct (list_eq_dec ascii_dec target_format query_format) as [E|_];
    [destruct (formats_differ E)|].
  split; reflexivity.
Qed.

Lemma ranges_layout_calls (M I D : Z) (query target : bytes)
    (ws : list (list Z)) :
  forall t q,
    ranges target_format (layout_calls M I D query target ws t q)
    = spans I ws t
    /\ ranges query_format (layout_calls M I D query target ws t q)
       = spans D ws q.
Proof.
  induction ws as [|w ws IH]; intros t q; [split; reflexivity|].
  cbn [layout_calls spans]. rewrite !ranges_app.
  destruct (ranges_window_calls M I D query target w t q) as [-> ->].
  destruct (IH (t + count I w) (q + count D w)) as [-> ->].
  split; reflexivity.
Qed.

(** *** The printed ranges and the coordinate ranges *)

Lemma last_cons_default {A : Type} (l : list A) (a d : A) :
  last (a :: l) d = last l a.
Proof.
  revert a d. induction l as [|b l IH]; intros a d; [reflexivity|].
  change (last (a :: b :: l) d) with (last (b :: l) d).
  rewrite (IH b d), (IH b a). reflexivity.
Qed.

Lemma line_indices_last (gap : Z) (w : list Z) :
  forall cursor,
    last (line_indices gap w cursor) cursor = cursor + count gap w.
Proof.
  induction w as [|op w IH]; intros cursor.
  - unfold count. cbn. lia.
  - cbn [line_indices]. rewrite count_cons. destruct (takes gap op).
    + rewrite last_cons_default, IH. lia.
    + rewrite IH. lia.
Qed.

Lemma line_indices_cases (gap : Z) (w : list Z) (cursor : Z) :
  (line_indices gap w cursor = [] /\ count gap w = 0)
  \/ (exists rest,
        line_indices gap w cursor = (cursor + 1) :: rest
        /\ 0 < count gap w).
Proof.
  induction w as [|op w IH].
  - left. split; reflexivity.
  - cbn [line_indices]. rewrite count_cons.
    pose proof (count_nonneg gap w) as Hnn. destruct (takes gap op).
    + right. eexists. split; [reflexivity|lia].
    + destruct IH as [[E Hc]|[rest [E Hc]]].
      * left. split; [exact E|lia].
      * right. exists rest. split; [exact E|lia].
Qed.

Lemma coordinate_range_count (gap : Z) (w : list Z) (cursor : Z) :
  coordinate_range gap w cursor
  = if 0 <? count gap w
    then Some (Z.max (cursor + 1) 0, cursor + count gap w)
    else None.
Proof.
  unfold coordinate_range.
  pose proof (line_indices_last gap w cursor) as Hlast.
  destruct (line_indices_cases gap w cursor) as [[E Hc]|[rest [E Hc]]];
    rewrite E in *.
  - rewrite Hc. reflexivity.
  - destruct (Z.ltb_spec 0 (count gap w)); [|lia].
    rewrite last_cons_default in Hlast. rewrite Hlast. reflexivity.
Qed.

Lemma printed_range_faithful (gap : Z) (w : list Z) (cursor : Z) :
  -1 <= cursor ->
  w <> [] ->
  Some (printed_lower gap w cursor, printed_upper gap w cursor)
  = coordinate_range gap w cursor
  <-> starts_with_symbol gap w \/ (cursor = -1 /\ 0 < count gap w).
Proof.
  intros Hc Hne. destruct w as [|op w]; [contradiction|].
  rewrite coordinate_range_count, printed_lower_cases by assumption.
  unfold printed_upper. cbn [starts_with_symbol].
  pose proof (count_cons gap op w) as Hcons.
  pose proof (count_nonneg gap w) as Hnn.
  destruct (takes gap op).
  - destruct (Z.ltb_spec 0 (count gap (op :: w))); [|lia].
    split; [intros _; left; reflexivity|].
    intros _. f_equal. f_equal. lia.
  - destruct (Z.ltb_spec 0 (count gap (op :: w))).
    + split.
      * intros E. injection E as E. right. split; lia.
      * intros [E|[E _]]; [discriminate|]. f_equal. f_equal. lia.
    + split; [discriminate|]. intros [E|[_ E]]; [discriminate|lia].
Qed.

Lemma spans_faithful (gap : Z) (ws : list (list Z)) :
  forall cursor,
    -1 <= cursor ->
    Forall (fun w => w <> []) ws ->
    map Some (spans gap ws cursor) = coordinate_ranges gap ws cursor
    <-> faithful gap ws cursor.
Proof.
  induction ws as [|w ws IH]; intros cursor Hc Hne.
  - split; reflexivity.
  - inversion Hne as [|? ? Hw Hws]; subst.
    cbn [spans map coordinate_ranges faithful].
    rewrite line_indices_last.
    pose proof (count_nonneg gap w) as Hnn.
    specialize (IH (cursor + count gap w) ltac:(lia) Hws).
    pose proof (printed_range_faithful gap w cursor Hc Hw) as Hhead.
    split.
    + intros E. injection E as E1 E2. split.
      * apply Hhead. exact E1.
      * apply IH. exact E2.
    + intros [H1 H2]. f_equal.
      * apply Hhead. exact H1.
      * apply IH. exact H2.
Qed.

Section Claims.

Variables EDLIB_EDOP_MATCH EDLIB_EDOP_INSERT EDLIB_EDOP_DELETE : Z.
Variables query target : bytes.
Variable alignment : list Z.
Variables alignmentLength position : Z.

Local Abbreviation printAlignment :=
  (Render.printAlignment EDLIB_EDOP_MATCH EDLIB_EDOP_INSERT EDLIB_EDOP_DELETE
     query target alignment alignmentLength position).
Local Abbreviation target_offset :=
  (Render.target_offset EDLIB_EDOP_INSERT alignment alignmentLength position).
Local Abbreviation start_cursor :=
  (Render.start_cursor EDLIB_EDOP_INSERT alignment position).
Local Abbreviation layout_calls :=
  (Render.layout_calls EDLIB_EDOP_MATCH EDLIB_EDOP_INSERT EDLIB_EDOP_DELETE
     query target).
Local Abbreviation layout :=
  (Render.layout EDLIB_EDOP_MATCH EDLIB_EDOP_INSERT EDLIB_EDOP_DELETE
     query target).

Lemma target_offset_done (modeCode : EdlibAlignMode) :
  alignmentLength = Z.of_nat (length alignment) ->
  alignmentLength <= INT_MAX ->
  in_int position = true ->
  INT_MIN <= start_cursor modeCode ->
  target_offset modeCode = Done (start_cursor modeCode).
Proof.
  intros Hlen Hmax Hpos Hlo. unfold Render.target_offset, Render.start_cursor in *.
  destruct (mode_eqb modeCode EDLIB_MODE_HW); [|reflexivity].
  rewrite Hlen, Nat2Z.id.
  apply (hw_loop_count EDLIB_EDOP_INSERT alignment (Z.of_nat (length alignment))
           eq_refl alignment [] (length alignment) position); auto.
  - lia.
  - apply in_int_iff in Hpos. tauto.
Qed.

Lemma printAlignment_calls (modeCode : EdlibAlignMode) :
  alignmentLength = Z.of_nat (length alignment) ->
  alignmentLength + 50 <= INT_MAX ->
  in_int position = true ->
  in_bounds EDLIB_EDOP_INSERT target alignment (start_cursor modeCode) ->
  in_bounds EDLIB_EDOP_DELETE query alignment (-1) ->
  printAlignment modeCode
  = Done (layout_calls (windows (length alignment) alignment)
            (start_cursor modeCode) (-1)).
Proof.
  intros Hlen Hmax Hpos Ht Hq. unfold Render.printAlignment.
  rewrite target_offset_done; auto.
  - cbn [bind]. rewrite Hlen at 2. rewrite Nat2Z.id.
    apply (window_loop_layout EDLIB_EDOP_MATCH EDLIB_EDOP_INSERT
             EDLIB_EDOP_DELETE query target alignment alignmentLength Hlen
             (length alignment) alignment []); auto.
  - lia.
  - destruct Ht as [Ht _]. unfold INT_MIN. lia.
Qed.

(** *** The offset of the HW mode *)

(** C4: in HW mode the pass over the whole script leaves in [tIdx] the
    position minus the number of operations that are not INSERT, and this
    is the cursor that the windows start from; in every mode the lower
    bound of each printed range is at least 0. *)
Theorem hw_offset_and_lower_bounds :
  alignmentLength = Z.of_nat (length alignment) ->
  alignmentLength <= INT_MAX ->
  in_int position = true ->
  INT_MIN <= position - count EDLIB_EDOP_INSERT alignment ->
  target_offset EDLIB_MODE_HW
  = Done (position - count EDLIB_EDOP_INSERT alignment)
  /\ forall modeCode,
       alignmentLength + 50 <= INT_MAX ->
       in_bounds EDLIB_EDOP_INSERT target alignment (start_cursor modeCode) ->
       in_bounds EDLIB_EDOP_DELETE query alignment (-1) ->
       exists calls,
         printAlignment modeCode = Done calls
         /\ Forall (fun lo => 0 <= lo) (lower_bounds calls).
Proof.
  intros Hlen Hmax Hpos Hlo. split.
  - apply (target_offset_done EDLIB_MODE_HW); assumption.
  - intros modeCode Hmax' Ht Hq. eexists. split.
    + apply printAlignment_calls; assumption.
    + apply lower_bounds_layout_calls.
Qed.

(** *** The windows and their three lines *)


End Claims.

(** *** Examples *)

Import Examples.

Lemma hw_offset_and_lower_bounds_witness :
  Render.target_offset INSERT [MATCH; INSERT; MATCH; MISMATCH; DELETE] 5 5
    EDLIB_MODE_HW = Done 1
  /\ exists calls,
       Render.printAlignment MATCH INSERT DELETE (str "ACGT") (str "TTAGATT")
         [MATCH; INSERT; MATCH; MISMATCH; DELETE] 5 5 EDLIB_MODE_HW
       = Done calls
       /\ Forall (fun lo => 0 <= lo) (lower_bounds calls).
Proof.
  assert (Hlen : 5 = Z.of_nat (length [MATCH; INSERT; MATCH; MISMATCH; DELETE]))
    by reflexivity.
  assert (Hmax : 5 <= INT_MAX) by (unfold INT_MAX; lia).
  assert (Hlo : INT_MIN <= 5 - count INSERT [MATCH; INSERT; MATCH; MISMATCH; DELETE])
    by (unfold INT_MIN; cbn; lia).
  destruct (hw_offset_and_lower_bounds MATCH INSERT DELETE (str "ACGT")
              (str "TTAGATT") [MATCH; INSERT; MATCH; MISMATCH; DELETE] 5 5
              Hlen Hmax eq_refl Hlo) as [H1 H2].
  split; [exact H1|].
  apply (H2 EDLIB_MODE_HW).
  - unfold INT_MAX. lia.
  - unfold in_bounds, INT_MAX. cbn. lia.
  - unfold in_bounds, INT_MAX. cbn. lia.
Defined.



Example render_nw :
  option_map string_of_list_ascii
    (match Render.printAlignment 0 1 2 (str "ACGT") (str "ACGA") [0; 0; 0; 3] 4 3
             EDLIB_MODE_NW with
     | Done calls => text calls
     | _ => None
     end)
  = Some (string_of_list_ascii
      (str "T: ACGA (0 - 3)" ++ [LF] ++ str "   ||| " ++ [LF] ++ str "Q: ACGT (0 - 3)" ++ [LF; LF])).
Proof. vm_compute. reflexivity. Qed.

End RenderFacts.

(** * More properties of the FASTA reader *)

Module FastaProperties.
Import Fasta FastaFacts.

(** *** What one step does to the parser *)
Lemma step_cases (c : ascii) (p : parser) :
  consistent p ->
  (kept (inHeader p) c = []
   /\ step c p
      = Done (mkParser (next_header (inHeader p) c)
                (if inHeader p then inSequence p
                 else if (c =? GT)%char then false else inSequence p)
                (seqs p)))
  \/ (inHeader p = false /\ is_residue c = true
      /\ ((inSequence p = false
           /\ step c p = Done (mkParser false true (seqs p ++ [[c]])))
          \/ (inSequence p = true
              /\ exists front last,
                   seqs p = front ++ [last]
                   /\ step c p = Done (mkParser false true (front ++ [last ++ [c]]))))).
Proof.
  intros Hc. destruct p as [h q v]. unfold step, kept, next_header, consistent in *.
  cbn [inHeader inSequence seqs] in *.
  destruct h.
  - left. split; [reflexivity|]. destruct (c =? LF)%char; reflexivity.
  - unfold is_residue.
    destruct (Ascii.eqb_spec c GT) as [|Hgt]; cbn [negb andb orb];
      [left; split; reflexivity|].
    destruct (Ascii.eqb_spec c CR) as [|Hcr]; cbn [negb andb orb];
      [left; split; reflexivity|].
    destruct (Ascii.eqb_spec c LF) as [|Hlf]; cbn [negb andb orb];
      [left; split; reflexivity|].
    right. split; [reflexivity|]. split; [reflexivity|].
    destruct q; cbn [negb inHeader inSequence seqs].
    + right. split; [reflexivity|].
      destruct (nonempty_last v (Hc eq_refl)) as [front [last ->]].
      exists front, last. split; [reflexivity|].
      rewrite back_push_back_last. reflexivity.
    + left. split; [reflexivity|].
      rewrite back_push_back_last. reflexivity.
Qed.

Lemma step_consistent (c : ascii) (p p' : parser) :
  consistent p -> step c p = Done p' -> consistent p'.
Proof.
  intros Hc E. destruct (step_total c p Hc) as [p1 [E1 [H1 _]]].
  rewrite E in E1. injection E1 as <-. exact H1.
Qed.

Lemma step_nonempty (c : ascii) (p p' : parser) :
  consistent p -> step c p = Done p' ->
  Forall (fun r => r <> []) (seqs p) -> Forall (fun r => r <> []) (seqs p').
Proof.
  intros Hc E H.
  destruct (step_cases c p Hc) as [[_ E1]|[_ [_ [[_ E1]|[_ [front [last [Ev E1]]]]]]]];
    rewrite E1 in E; injection E as <-; cbn [seqs].
  - assumption.
  - apply Forall_app. split; [assumption|]. constructor; [discriminate|constructor].
  - rewrite Ev in H. apply Forall_app in H. destruct H as [Hf _].
    apply Forall_app. split; [assumption|].
    constructor; [|constructor]. intros E. apply app_eq_nil in E. destruct E; discriminate.
Qed.

Lemma for_buffer_nonempty (s : bytes) :
  forall p p',
    consistent p -> for_buffer s p = Done p' ->
    Forall (fun r => r <> []) (seqs p) -> Forall (fun r => r <> []) (seqs p').
Proof.
  induction s as [|c s IH]; intros p p' Hc E H.
  - injection E as <-. assumption.
  - cbn [for_buffer] in E. destruct (step c p) as [p1| |] eqn:E1; cbn [bind] in E;
      try discriminate.
    apply (IH p1 p'); auto.
    + exact (step_consistent _ _ _ Hc E1).
    + exact (step_nonempty _ _ _ Hc E1 H).
Qed.

(** X1: [readFastaSequences] never produces an empty record: an entry
    without residues gives no record at all. *)
Theorem records_never_empty (fs : filesystem) (path content : bytes) :
  fs path = Some content ->
  exists recs,
    readFastaSequences fs path = Done (0, recs)
    /\ Forall (fun r => r <> []) recs.
Proof.
  intros Hfile. rewrite (read_opened _ _ _ Hfile).
  destruct (for_buffer_total content _ consistent_initial) as [p [E _]].
  rewrite E. cbn [bind]. exists (seqs p). split; [reflexivity|].
  apply (for_buffer_nonempty content _ p consistent_initial E). constructor.
Qed.

(** *** The records and the markers

    A record is started by the first residue after a marker, or after
    the start of the stream: [pending] counts the record that may still
    start. *)

Local Abbreviation pending p := (if inSequence p then 0%nat else 1%nat).

Lemma step_count (c : ascii) (p p' : parser) :
  consistent p -> step c p = Done p' ->
  (length (seqs p') + pending p'
   <= length (seqs p) + pending p + count_markers [c])%nat.
Proof.
  intros Hc E. unfold count_markers. cbn [filter].
  destruct (step_cases c p Hc) as [[_ E1]|[Hh [Hr [[Hq E1]|[Hq [front [last [Ev E1]]]]]]]];
    rewrite E1 in E; injection E as <-; cbn [seqs inSequence].
  - destruct (inHeader p); [lia|].
    destruct (c =? GT)%char; cbn [length]; destruct (inSequence p); lia.
  - rewrite Hq, length_app. cbn [length]. lia.
  - rewrite Hq, Ev, !length_app. cbn [length]. lia.
Qed.

Lemma for_buffer_count (s : bytes) :
  forall p p',
    consistent p -> for_buffer s p = Done p' ->
    (length (seqs p') + pending p'
     <= length (seqs p) + pending p + count_markers s)%nat.
Proof.
  induction s as [|c s IH]; intros p p' Hc E.
  - injection E as <-. unfold count_markers. cbn. lia.
  - cbn [for_buffer] in E. destruct (step c p) as [p1| |] eqn:E1; cbn [bind] in E;
      try discriminate.
    pose proof (step_count _ _ _ Hc E1) as H1.
    pose proof (IH p1 p' (step_consistent _ _ _ Hc E1) E) as H2.
    change (c :: s) with ([c] ++ s). rewrite count_markers_app. lia.
Qed.

(** X2: there is at most one record more than there are markers '>' in
    the file, and at most as many records as markers when the file starts
    with a marker. *)
Theorem records_at_most_markers (fs : filesystem) (path content : bytes) :
  fs path = Some content ->
  exists recs,
    readFastaSequences fs path = Done (0, recs)
    /\ (length recs <= S (count_markers content))%nat
    /\ (forall rest, content = GT :: rest ->
        (length recs <= count_markers content)%nat).
Proof.
  intros Hfile. rewrite (read_opened _ _ _ Hfile).
  destruct (for_buffer_total content _ consistent_initial) as [p [E _]].
  rewrite E. cbn [bind]. exists (seqs p). split; [reflexivity|]. split.
  - pose proof (for_buffer_count content _ p consistent_initial E) as H.
    cbn [seqs inSequence length] in H.
    destruct (inSequence p); lia.
  - intros rest ->. cbn [for_buffer] in E. unfold step at 1 in E.
    cbn [inHeader bind] in E.
    replace ((GT =? GT)%char) with true in E by reflexivity. cbn [seqs] in E.
    assert (Hc : consistent (mkParser true false [])) by (intros H; discriminate).
    pose proof (for_buffer_count rest _ p Hc E) as H.
    cbn [seqs inSequence length] in H.
    change (GT :: rest) with ([GT] ++ rest). rewrite count_markers_app.
    change (count_markers [GT]) with 1%nat.
    destruct (inSequence p); lia.
Qed.

(** *** Carriage returns *)
Lemma step_carriage_return (p : parser) : step CR p = Done p.
Proof.
  unfold step. destruct (inHeader p); reflexivity.
Qed.

Lemma for_buffer_without_carriage_returns (s : bytes) (p : parser) :
  for_buffer (filter (fun c => negb (c =? CR)%char) s) p = for_buffer s p.
Proof.
  revert p. induction s as [|c s IH]; intros p; [reflexivity|].
  cbn [filter]. destruct (Ascii.eqb_spec c CR) as [->|Hc]; cbn [negb].
  - cbn [for_buffer]. rewrite step_carriage_return. cbn [bind]. apply IH.
  - cbn [for_buffer]. destruct (step c p); cbn [bind]; auto.
Qed.

(** X3: carriage returns are skipped everywhere, in header lines too: a
    file without its carriage returns gives the same records. *)
Theorem carriage_returns_change_nothing (fs fs' : filesystem) (path content : bytes) :
  fs path = Some content ->
  fs' path = Some (filter (fun c => negb (c =? CR)%char) content) ->
  readFastaSequences fs' path = readFastaSequences fs path.
Proof.
  intros H H'. rewrite (read_opened _ _ _ H), (read_opened _ _ _ H').
  rewrite for_buffer_without_carriage_returns. reflexivity.
Qed.

(** *** Header lines *)
Lemma header_line_skipped (h rest : bytes) (q : bool) (v : list bytes) :
  forallb (fun c => negb (c =? LF)%char) h = true ->
  for_buffer (h ++ LF :: rest) (mkParser true q v)
  = for_buffer rest (mkParser false q v).
Proof.
  induction h as [|c h IH]; intros H.
  - reflexivity.
  - cbn [forallb] in H. apply andb_true_iff in H. destruct H as [Hc H].
    cbn [app for_buffer]. unfold step at 1. cbn [inHeader].
    destruct (c =? LF)%char; [discriminate|]. cbn [bind]. auto.
Qed.

Lemma marked_line_skipped (h rest : bytes) (p : parser) :
  forallb (fun c => negb (c =? LF)%char) h = true ->
  for_buffer (GT :: h ++ LF :: rest) p
  = for_buffer rest
      (mkParser false (if inHeader p then inSequence p else false) (seqs p)).
Proof.
  intros H. destruct p as [[|] q v]; cbn [for_buffer inHeader inSequence seqs].
  - unfold step at 1. cbn [inHeader bind].
    replace ((GT =? LF)%char) with false by reflexivity. cbn [bind].
    apply header_line_skipped. assumption.
  - unfold step at 1. cbn [inHeader bind seqs].
    replace ((GT =? GT)%char) with true by reflexivity. cbn [bind].
    apply header_line_skipped. assumption.
Qed.

(** X4: the text of a header line is not kept and has no effect: two
    files that differ in the text between a marker and the end of its
    line give the same result. *)
Theorem header_text_is_ignored (fs fs' : filesystem)
    (path before h h' rest : bytes) :
  fs path = Some (before ++ GT :: h ++ LF :: rest) ->
  fs' path = Some (before ++ GT :: h' ++ LF :: rest) ->
  forallb (fun c => negb (c =? LF)%char) h = true ->
  forallb (fun c => negb (c =? LF)%char) h' = true ->
  readFastaSequences fs' path = readFastaSequences fs path.
Proof.
  intros H H' Hh Hh'. rewrite (read_opened _ _ _ H), (read_opened _ _ _ H').
  rewrite !for_buffer_app.
  destruct (for_buffer before (mkParser false false [])) as [p| |];
    cbn [bind]; try reflexivity.
  rewrite !marked_line_skipped by assumption. reflexivity.
Qed.

(** *** Records are only extended at the end *)
Lemma step_keeps_front (c : ascii) (p p' : parser)
    (F : list bytes) (L e : bytes) (M : list bytes) :
  consistent p -> step c p = Done p' ->
  seqs p = F ++ [L ++ e] ++ M ->
  exists e' M', seqs p' = F ++ [L ++ e'] ++ M'.
Proof.
  intros Hc E Hv.
  destruct (step_cases c p Hc) as [[_ E1]|[_ [_ [[_ E1]|[_ [front [last [Ev E1]]]]]]]];
    rewrite E1 in E; injection E as <-; cbn [seqs].
  - exists e, M. assumption.
  - exists e, (M ++ [[c]]). rewrite Hv, <- !app_assoc. reflexivity.
  - rewrite Hv in Ev. induction M as [|m M0 _] using rev_ind.
    + cbn [app] in Ev. apply app_inj_tail in Ev. destruct Ev as [<- <-].
      exists (e ++ [c]), []. rewrite <- app_assoc. reflexivity.
    + assert (Ev' : (F ++ [L ++ e] ++ M0) ++ [m] = front ++ [last])
        by (rewrite <- Ev, <- !app_assoc; reflexivity).
      apply app_inj_tail in Ev'. destruct Ev' as [<- <-].
      exists e, (M0 ++ [m ++ [c]]). rewrite <- !app_assoc. reflexivity.
Qed.

Lemma for_buffer_keeps_front (s : bytes) :
  forall (p p' : parser) (F : list bytes) (L e : bytes) (M : list bytes),
    consistent p -> for_buffer s p = Done p' ->
    seqs p = F ++ [L ++ e] ++ M ->
    exists e' M', seqs p' = F ++ [L ++ e'] ++ M'.
Proof.
  induction s as [|c s IH]; intros p p' F L e M Hc E Hv.
  - injection E as <-. eauto.
  - cbn [for_buffer] in E. destruct (step c p) as [p1| |] eqn:E1; cbn [bind] in E;
      try discriminate.
    destruct (step_keeps_front _ _ _ _ _ _ _ Hc E1 Hv) as [e1 [M1 Hv1]].
    exact (IH p1 p' F L e1 M1 (step_consistent _ _ _ Hc E1) E Hv1).
Qed.

(** X5: bytes added at the end of a file leave the records before the
    last one as they are, and can only extend the last one and add
    records after it. *)
Theorem earlier_records_are_kept (fs fs' : filesystem) (path a b : bytes) :
  fs path = Some a ->
  fs' path = Some (a ++ b) ->
  exists recs recs',
    readFastaSequences fs path = Done (0, recs)
    /\ readFastaSequences fs' path = Done (0, recs')
    /\ forall front last,
         recs = front ++ [last] ->
         exists ext more, recs' = front ++ [last ++ ext] ++ more.
Proof.
  intros H H'. rewrite (read_opened _ _ _ H), (read_opened _ _ _ H').
  destruct (for_buffer_total a _ consistent_initial) as [p [E [Hc _]]].
  destruct (for_buffer_total b p Hc) as [p' [E' _]].
  rewrite for_buffer_app, E. cbn [bind]. rewrite E'. cbn [bind].
  exists (seqs p), (seqs p'). split; [reflexivity|]. split; [reflexivity|].
  intros front last Hv.
  apply (for_buffer_keeps_front b p p' front last [] [] Hc E').
  rewrite Hv, !app_nil_r. reflexivity.
Qed.

(** *** Examples *)

Lemma records_never_empty_witness :
  exists recs,
    readFastaSequences
      (single_file a_fa (str ">s1" ++ [LF] ++ str ">s2" ++ [LF] ++ str "AC"))
      a_fa
    = Done (0, recs)
    /\ Forall (fun r => r <> []) recs.
Proof.
  exact (records_never_empty
           (single_file a_fa (str ">s1" ++ [LF] ++ str ">s2" ++ [LF] ++ str "AC"))
           a_fa _ eq_refl).
Defined.

Lemma records_at_most_markers_witness :
  exists recs,
    readFastaSequences
      (single_file a_fa (str ">s1" ++ [LF] ++ str ">s2" ++ [LF] ++ str "AC"))
      a_fa
    = Done (0, recs)
    /\ (length recs <= 3)%nat.
Proof.
  destruct (records_at_most_markers
              (single_file a_fa
                 (str ">s1" ++ [LF] ++ str ">s2" ++ [LF] ++ str "AC"))
              a_fa _ eq_refl) as [recs [H1 [H2 _]]].
  exists recs. split; [exact H1|exact H2].
Defined.

Lemma carriage_returns_change_nothing_witness :
  readFastaSequences
    (single_file a_fa
       (filter (fun c => negb (c =? CR)%char) (stream_of two_entries)))
    a_fa
  = readFastaSequences (single_file a_fa (stream_of two_entries)) a_fa.
Proof.
  exact (carriage_returns_change_nothing
           (single_file a_fa (stream_of two_entries))
           (single_file a_fa
              (filter (fun c => negb (c =? CR)%char) (stream_of two_entries)))
           a_fa (stream_of two_entries) eq_refl eq_refl).
Defined.

Lemma header_text_is_ignored_witness :
  readFastaSequences
    (single_file a_fa (str "AC" ++ GT :: str "> a longer name" ++ LF :: str "GT"))
    a_fa
  = readFastaSequences
      (single_file a_fa (str "AC" ++ GT :: str "s1" ++ LF :: str "GT")) a_fa.
Proof.
  exact (header_text_is_ignored
           (single_file a_fa (str "AC" ++ GT :: str "s1" ++ LF :: str "GT"))
           (single_file a_fa
              (str "AC" ++ GT :: str "> a longer name" ++ LF :: str "GT"))
           a_fa (str "AC") (str "s1") (str "> a longer name") (str "GT")
           eq_refl eq_refl eq_refl eq_refl).
Defined.

Lemma earlier_records_are_kept_witness :
  exists recs recs',
    readFastaSequences (single_file a_fa (str ">s1" ++ [LF] ++ str "AC")) a_fa
    = Done (0, recs)
    /\ readFastaSequences
         (single_file a_fa
            ((str ">s1" ++ [LF] ++ str "AC")
             ++ (str "GT" ++ [LF] ++ str ">s2" ++ [LF] ++ str "TT")))
         a_fa
       = Done (0, recs').
Proof.
  destruct (earlier_records_are_kept
              (single_file a_fa (str ">s1" ++ [LF] ++ str "AC"))
              (single_file a_fa
                 ((str ">s1" ++ [LF] ++ str "AC")
                  ++ (str "GT" ++ [LF] ++ str ">s2" ++ [LF] ++ str "TT")))
              a_fa (str ">s1" ++ [LF] ++ str "AC")
              (str "GT" ++ [LF] ++ str ">s2" ++ [LF] ++ str "TT")
              eq_refl eq_refl) as [recs [recs' [H1 [H2 _]]]].
  exists recs, recs'. split; [exact H1|exact H2].
Defined.

End FastaProperties.

(** * More properties of the reader of pairs *)

Module ReaderProperties.
Import Reader ReaderFacts Lines.

Lemma take_line_whole (s : bytes) :
  s <> [] ->
  s = fst (take_line s) ++ snd (take_line s)
  /\ whole_line (fst (take_line s)) (snd (take_line s)).
Proof.
  induction s as [|c s IH]; intros Hne; [contradiction|].
  cbn [take_line]. destruct (Ascii.eqb_spec c LF) as [->|Hc].
  - split; [reflexivity|]. left. exists []. split; reflexivity.
  - assert (Ec : negb (c =? LF)%char = true)
      by (apply negb_true_iff, Ascii.eqb_neq; exact Hc).
    destruct s as [|c' s'].
    + cbn. split; [reflexivity|]. right. split; [discriminate|].
      split; [|reflexivity]. unfold no_line_feed. cbn [forallb].
      rewrite Ec. reflexivity.
    + destruct IH as [IH1 IH2]; [discriminate|].
      destruct (take_line (c' :: s')) as [l r]. cbn [fst snd] in *.
      split; [cbn [app]; f_equal; exact IH1|].
      destruct IH2 as [[b [-> Hb]]|[Hl [Hn ->]]].
      * left. exists (c :: b). split; [reflexivity|].
        unfold no_line_feed in *. cbn [forallb]. rewrite Ec. exact Hb.
      * right. split; [discriminate|]. split; [|reflexivity].
        unfold no_line_feed in *. cbn [forallb]. rewrite Ec. exact Hn.
Qed.

Lemma whole_line_nonempty (l after : bytes) : whole_line l after -> l <> [].
Proof.
  intros [[b [-> _]]|[H _]]; [|exact H]. destruct b; discriminate.
Qed.

Lemma getline_whole (f : FILE) :
  unread f <> [] ->
  exists l r e,
    getline f = (Z.of_nat (length l), l, mkFILE r e)
    /\ unread f = l ++ r
    /\ whole_line l r.
Proof.
  intros Hne. unfold getline.
  destruct (take_line_whole (unread f) Hne) as [H1 H2].
  destruct (unread f) as [|c s] eqn:E; [contradiction|].
  destruct (take_line (c :: s)) as [l r]. cbn [fst snd] in *.
  eexists l, r, _. split; [reflexivity|]. split; assumption.
Qed.

Lemma read_input_whole (f f' : FILE) (p : pair) :
  read_input (Some f) = Done (Some p, f') ->
  unread f = line1 p ++ line2 p ++ unread f'
  /\ whole_line (line1 p) (line2 p ++ unread f')
  /\ whole_line (line2 p) (unread f')
  /\ line1_length p = to_int (Z.of_nat (length (line1 p)))
  /\ line2_length p = to_int (Z.of_nat (length (line2 p))).
Proof.
  unfold read_input.
  destruct (unread f) as [|c s] eqn:E.
  { unfold getline. rewrite E. cbn. discriminate. }
  destruct (getline_whole f) as [l1 [r1 [e1 [G1 [S1 W1]]]]]; [congruence|].
  rewrite G1. destruct (to_int (Z.of_nat (length l1)) =? -1); [discriminate|].
  destruct r1 as [|c2 s2].
  { unfold getline. cbn. discriminate. }
  destruct (getline_whole (mkFILE (c2 :: s2) e1))
    as [l2 [r2 [e2 [G2 [S2 W2]]]]]; [discriminate|].
  rewrite G2.
  destruct (to_int (Z.of_nat (length l2)) =? -1); [discriminate|].
  intros H. injection H as <- <-.
  cbn [line1 line2 line1_length line2_length unread] in *.
  rewrite <- E, <- S2.
  split; [exact S1|]. split; [exact W1|]. split; [exact W2|].
  split; reflexivity.
Qed.

(** X6: a pair that [read_input] returns is the next two lines of the
    stream: each buffer holds bytes without line feed and the line feed
    that ends them, or, for the second one at the end of the stream,
    bytes without line feed; the stream is left after them, so that no
    byte is skipped or read twice; the two lengths are the numbers of
    bytes of the buffers, as [int]s. *)
Theorem read_input_takes_two_lines (f f' : FILE) (p : pair) :
  read_input (Some f) = Done (Some p, f') ->
  unread f = line1 p ++ line2 p ++ unread f'
  /\ (exists b, line1 p = b ++ [LF] /\ no_line_feed b = true)
  /\ whole_line (line2 p) (unread f')
  /\ line1_length p = to_int (Z.of_nat (length (line1 p)))
  /\ line2_length p = to_int (Z.of_nat (length (line2 p))).
Proof.
  intros E. destruct (read_input_whole f f' p E) as [H1 [H2 [H3 [H4 H5]]]].
  split; [exact H1|]. split; [|split; [exact H3|split; assumption]].
  destruct H2 as [H2|[_ [_ H2]]]; [exact H2|].
  apply app_eq_nil in H2. destruct H2 as [H2 _].
  destruct (whole_line_nonempty _ _ H3 H2).
Qed.

Lemma read_input_defined (f : FILE) :
  exists r, read_input (Some f) = Done r.
Proof.
  unfold read_input. destruct (getline f) as [[n1 l1] f1].
  destruct (to_int n1 =? -1); [eexists; reflexivity|].
  destruct (getline f1) as [[n2 l2] f2].
  destruct (to_int n2 =? -1); eexists; reflexivity.
Qed.

Lemma read_all_lines_in_pairs (fuel : nat) :
  forall f,
    (length (unread f) <= fuel)%nat ->
    exists ps rest,
      read_all fuel f = Done ps
      /\ unread f = pairs_bytes ps ++ rest
      /\ lines_in_pairs ps rest
      /\ (2 * length ps <= length (unread f))%nat.
Proof.
  induction fuel as [fuel IH] using lt_wf_ind. intros f Hlen.
  destruct (read_input_defined f) as [[[p|] f'] E].
  - destruct (read_input_whole f f' p E) as [Hs [W1 [W2 _]]].
    pose proof (whole_line_nonempty _ _ W1) as N1.
    pose proof (whole_line_nonempty _ _ W2) as N2.
    assert (Hl : (length (unread f) >= 2 + length (unread f'))%nat).
    { rewrite Hs, !length_app. destruct (line1 p); [contradiction|].
      destruct (line2 p); [contradiction|]. cbn [length]. lia. }
    destruct fuel as [|fuel]; [lia|].
    destruct (IH fuel (Nat.lt_succ_diag_r fuel) f')
      as [ps [rest [E' [Hs' [Hw Hn]]]]]; [lia|].
    exists (p :: ps), rest. cbn [read_all]. rewrite E. cbn [bind]. rewrite E'.
    cbn [bind]. split; [reflexivity|].
    cbn [lines_in_pairs length]. rewrite <- Hs'.
    split; [|split; [split; [exact W1|split; [exact W2|exact Hw]]|lia]].
    unfold pairs_bytes in *. cbn [map concat].
    rewrite Hs, Hs', <- !app_assoc. reflexivity.
  - exists [], (unread f). split; [|split; [reflexivity|split; [exact I|cbn; lia]]].
    destruct fuel; cbn [read_all]; rewrite E; reflexivity.
Qed.

(** X7: on every stream the successive calls of [read_input] stop after
    finitely many pairs, at most one for every two bytes; the buffers of
    the pairs are, in order, whole lines of the stream, and together a
    prefix of it. *)
Theorem read_pairs_is_a_prefix (s : bytes) (e : bool) :
  exists ps rest,
    read_pairs (mkFILE s e) = Done ps
    /\ s = pairs_bytes ps ++ rest
    /\ lines_in_pairs ps rest
    /\ (2 * length ps <= length s)%nat.
Proof.
  exact (read_all_lines_in_pairs (length s) (mkFILE s e) (Nat.le_refl _)).
Qed.

(** *** Examples *)

Lemma read_input_takes_two_lines_witness :
  exists p f',
    read_input
      (Some (mkFILE (str "AC" ++ [LF] ++ str "GT" ++ [LF] ++ str "rest") false))
    = Done (Some p, f')
    /\ str "AC" ++ [LF] ++ str "GT" ++ [LF] ++ str "rest"
       = line1 p ++ line2 p ++ unread f'
    /\ (exists b, line1 p = b ++ [LF] /\ no_line_feed b = true).
Proof.
  eexists. eexists.
  refine ((fun E =>
             conj E
               (conj (proj1 (read_input_takes_two_lines _ _ _ E))
                     (proj1 (proj2 (read_input_takes_two_lines _ _ _ E))))) _).
  vm_compute. reflexivity.
Defined.

End ReaderProperties.

(** * More properties of the driver *)

Module DriverProperties.
Import Edlib Stdio Reader Driver IntFacts DriverFacts CommandLine.

Lemma switch_fields (c : ascii) (optarg : bytes) (o o' : options) :
  switch c optarg o = Done o' ->
  mode o' = (if (c =? "m")%char then optarg else mode o)
  /\ alignmentFormat o' = (if (c =? "f")%char then optarg else alignmentFormat o)
  /\ (if (c =? "n")%char then atoi optarg = Done (numBestSeqs o')
      else numBestSeqs o' = numBestSeqs o)
  /\ (if (c =? "k")%char then atoi optarg = Done (kArg o')
      else kArg o' = kArg o)
  /\ (if (c =? "r")%char then atoi optarg = Done (numRepeats o')
      else numRepeats o' = numRepeats o)
  /\ silent o' = silent o || (c =? "s")%char
  /\ findAlignment o' = findAlignment o || (c =? "p")%char
  /\ findStartLocations o' = findStartLocations o || (c =? "l")%char.
Proof.
  unfold switch.
  destruct (Ascii.eqb_spec c "m") as [->|Hm].
  { cbn. unfold strcpy. destruct (Nat.ltb (length optarg) 16); cbn [bind];
      [|discriminate]. intros H. injection H as <-. cbn.
    rewrite !orb_false_r. repeat split. }
  destruct (Ascii.eqb_spec c "n") as [->|Hn].
  { cbn. destruct (atoi optarg) as [v| |] eqn:E; cbn [bind]; try discriminate.
    intros H. injection H as <-. cbn. rewrite !orb_false_r. repeat split. }
  destruct (Ascii.eqb_spec c "k") as [->|Hk].
  { cbn. destruct (atoi optarg) as [v| |] eqn:E; cbn [bind]; try discriminate.
    intros H. injection H as <-. cbn. rewrite !orb_false_r. repeat split. }
  destruct (Ascii.eqb_spec c "f") as [->|Hf].
  { cbn. unfold strcpy. destruct (Nat.ltb (length optarg) 16); cbn [bind];
      [|discriminate]. intros H. injection H as <-. cbn.
    rewrite !orb_false_r. repeat split. }
  destruct (Ascii.eqb_spec c "s") as [->|Hs].
  { intros H. injection H as <-. cbn. rewrite !orb_false_r, ?orb_true_r.
    repeat split. }
  destruct (Ascii.eqb_spec c "p") as [->|Hp].
  { intros H. injection H as <-. cbn. rewrite !orb_false_r, ?orb_true_r.
    repeat split. }
  destruct (Ascii.eqb_spec c "l") as [->|Hl].
  { intros H. injection H as <-. cbn. rewrite !orb_false_r, ?orb_true_r.
    repeat split. }
  destruct (Ascii.eqb_spec c "r") as [->|Hr].
  { cbn. destruct (atoi optarg) as [v| |] eqn:E; cbn [bind]; try discriminate.
    intros H. injection H as <-. cbn. rewrite !orb_false_r. repeat split. }
  intros H. injection H as <-. cbn. rewrite !orb_false_r. repeat split.
Qed.

Lemma getopt_loop_fields (returned : list (ascii * bytes)) :
  forall o0 o,
    getopt_loop returned o0 = Done o ->
    mode o = match last_optarg "m" returned with
             | Some a => a
             | None => mode o0
             end
    /\ alignmentFormat o = match last_optarg "f" returned with
                           | Some a => a
                           | None => alignmentFormat o0
                           end
    /\ match last_optarg "n" returned with
       | Some a => atoi a = Done (numBestSeqs o)
       | None => numBestSeqs o = numBestSeqs o0
       end
    /\ match last_optarg "k" returned with
       | Some a => atoi a = Done (kArg o)
       | None => kArg o = kArg o0
       end
    /\ match last_optarg "r" returned with
       | Some a => atoi a = Done (numRepeats o)
       | None => numRepeats o = numRepeats o0
       end
    /\ silent o = silent o0 || given "s" returned
    /\ findAlignment o = findAlignment o0 || given "p" returned
    /\ findStartLocations o = findStartLocations o0 || given "l" returned.
Proof.
  induction returned as [|[c optarg] returned IH]; intros o0 o E.
  - injection E as <-. cbn. rewrite !orb_false_r. repeat split.
  - cbn [getopt_loop] in E.
    destruct (switch c optarg o0) as [o1| |] eqn:E1; cbn [bind] in E;
      try discriminate.
    destruct (switch_fields _ _ _ _ E1) as [S1 [S2 [S3 [S4 [S5 [S6 [S7 S8]]]]]]].
    destruct (IH _ _ E) as [H1 [H2 [H3 [H4 [H5 [H6 [H7 H8]]]]]]].
    unfold given in *. cbn [last_optarg existsb fst].
    split; [|split; [|split; [|split; [|split; [|split; [|split]]]]]].
    + rewrite H1, S1. destruct (last_optarg "m" returned); [reflexivity|].
      destruct (c =? "m")%char; reflexivity.
    + rewrite H2, S2. destruct (last_optarg "f" returned); [reflexivity|].
      destruct (c =? "f")%char; reflexivity.
    + destruct (last_optarg "n" returned); [assumption|].
      destruct (c =? "n")%char; congruence.
    + destruct (last_optarg "k" returned); [assumption|].
      destruct (c =? "k")%char; congruence.
    + destruct (last_optarg "r" returned); [assumption|].
      destruct (c =? "r")%char; congruence.
    + rewrite H6, S6, orb_assoc. reflexivity.
    + rewrite H7, S7, orb_assoc. reflexivity.
    + rewrite H8, S8, orb_assoc. reflexivity.
Qed.

(** X8: when an option is given more than once its last occurrence
    counts, and an option that is not given keeps its default: NW for
    the mode, NICE for the format, -1 for -k and 1 for -r. *)
Theorem last_option_wins (returned : list (ascii * bytes)) (o : options) :
  getopt_loop returned initial = Done o ->
  mode o = match last_optarg "m" returned with
           | Some a => a
           | None => str "NW"
           end
  /\ alignmentFormat o = match last_optarg "f" returned with
                         | Some a => a
                         | None => str "NICE"
                         end
  /\ match last_optarg "k" returned with
     | Some a => atoi a = Done (kArg o)
     | None => kArg o = -1
     end
  /\ match last_optarg "r" returned with
     | Some a => atoi a = Done (numRepeats o)
     | None => numRepeats o = 1
     end.
Proof.
  intros E. destruct (getopt_loop_fields _ _ _ E) as [H1 [H2 [_ [H4 [H5 _]]]]].
  auto.
Qed.

(** X9: the task is PATH when -p is given, whether or not -l is given
    too, LOC when only -l is given and DISTANCE otherwise. *)
Theorem task_of_flags (returned : list (ascii * bytes)) (o : options) :
  getopt_loop returned initial = Done o ->
  alignTask_of o
  = if given "p" returned then EDLIB_TASK_PATH
    else if given "l" returned then EDLIB_TASK_LOC
    else EDLIB_TASK_DISTANCE.
Proof.
  intros E. destruct (getopt_loop_fields _ _ _ E) as [_ [_ [_ [_ [_ [_ [H7 H8]]]]]]].
  unfold alignTask_of. rewrite H7, H8. reflexivity.
Qed.

Lemma switch_defined (c : ascii) (optarg : bytes) (o : options) :
  switch c optarg o <> OutOfFuel.
Proof.
  unfold switch, strcpy, atoi.
  repeat match goal with
         | |- context [if ?b then _ else _] => destruct b; cbn [bind]
         end; discriminate.
Qed.

Lemma switch_overflow (c : ascii) (optarg : bytes) (o : options) :
  c = "m"%char \/ c = "f"%char ->
  (16 <= length optarg)%nat ->
  switch c optarg o = Undefined.
Proof.
  intros Hc Hlen.
  assert (E : strcpy 16 optarg = Undefined).
  { unfold strcpy. destruct (Nat.ltb_spec (length optarg) 16); [lia|reflexivity]. }
  unfold switch. destruct Hc as [->| ->]; cbn -[strcpy]; rewrite E; reflexivity.
Qed.

Lemma getopt_loop_overflow (returned : list (ascii * bytes)) :
  forall (c : ascii) (optarg : bytes) (o : options),
    In (c, optarg) returned ->
    c = "m"%char \/ c = "f"%char ->
    (16 <= length optarg)%nat ->
    getopt_loop returned o = Undefined.
Proof.
  induction returned as [|[c0 a0] returned IH]; intros c optarg o Hin Hc Hlen.
  - contradiction.
  - cbn [getopt_loop].
    destruct (switch c0 a0 o) as [o1| |] eqn:E; cbn [bind].
    + destruct Hin as [Heq|Hin].
      * injection Heq as -> ->. rewrite switch_overflow in E by assumption.
        discriminate.
      * exact (IH c optarg o1 Hin Hc Hlen).
    + reflexivity.
    + exfalso. exact (switch_defined _ _ _ E).
Qed.

Lemma switch_silent_set (c : ascii) (optarg : bytes) (o : options) :
  switch c optarg (silent_set o)
  = (o' <- switch c optarg o ;; Done (silent_set o')).
Proof.
  unfold switch, silent_set.
  cbn [silent mode numBestSeqs findAlignment findStartLocations kArg
       numRepeats alignmentFormat invalidOption].
  repeat match goal with
         | |- context [if ?b then _ else _] => destruct b
         end;
    try reflexivity;
    try (destruct (strcpy 16 optarg); reflexivity);
    destruct (atoi optarg); reflexivity.
Qed.

Lemma getopt_loop_silent_set (returned : list (ascii * bytes)) :
  forall o,
    getopt_loop returned (silent_set o)
    = (o' <- getopt_loop returned o ;; Done (silent_set o')).
Proof.
  induction returned as [|[c optarg] returned IH]; intros o; [reflexivity|].
  cbn [getopt_loop]. rewrite switch_silent_set.
  destruct (switch c optarg o) as [o1| |]; cbn [bind]; auto.
Qed.

Lemma getopt_loop_app (a b : list (ascii * bytes)) :
  forall o,
    getopt_loop (a ++ b) o = (o1 <- getopt_loop a o ;; getopt_loop b o1).
Proof.
  induction a as [|[c optarg] a IH]; intros o; [reflexivity|].
  cbn [app getopt_loop]. destruct (switch c optarg o); cbn [bind]; auto.
Qed.

Section Engine.

Variable EdlibAlignConfig : Type.
Variable EdlibAlignResult : Type.
Variable edlibNewAlignConfig :
  Z -> EdlibAlignMode -> EdlibAlignTask -> option (list (ascii * ascii)) -> Z ->
  EdlibAlignConfig.
Variable edlibAlign :
  bytes -> Z -> bytes -> Z -> EdlibAlignConfig -> EdlibAlignResult.
Variable getopt : list bytes -> list (ascii * bytes) * Z.
Variable fs : filesystem.
Variables start finish : Z.

Local Abbreviation event := (Driver.event EdlibAlignConfig EdlibAlignResult).
Local Abbreviation for_rep :=
  (Driver.for_rep EdlibAlignConfig EdlibAlignResult edlibNewAlignConfig edlibAlign).
Local Abbreviation while_read_input :=
  (Driver.while_read_input EdlibAlignConfig EdlibAlignResult
     edlibNewAlignConfig edlibAlign).
Local Abbreviation run :=
  (Driver.run EdlibAlignConfig EdlibAlignResult edlibNewAlignConfig edlibAlign
     fs start finish).
Local Abbreviation main :=
  (Driver.main EdlibAlignConfig EdlibAlignResult edlibNewAlignConfig edlibAlign
     getopt fs start finish).
Local Abbreviation before_pairs :=
  (Driver.before_pairs EdlibAlignConfig EdlibAlignResult).
Local Abbreviation after_pairs :=
  (Driver.after_pairs EdlibAlignConfig EdlibAlignResult start finish).
Local Abbreviation released :=
  (CommandLine.released EdlibAlignConfig EdlibAlignResult edlibAlign).

(** X10: an argument of -m or -f of 16 bytes or more is copied past the
    end of its array: the behaviour of [main] is undefined, wherever the
    option stands and whatever follows it. *)
Theorem long_option_argument_overflows (argv : list bytes)
    (returned : list (ascii * bytes)) (optind : Z) (c : ascii) (optarg : bytes) :
  getopt argv = (returned, optind) ->
  In (c, optarg) returned ->
  c = "m"%char \/ c = "f"%char ->
  (16 <= length optarg)%nat ->
  main argv = Undefined.
Proof.
  intros Hg Hin Hc Hlen. unfold Driver.main. rewrite Hg.
  rewrite (getopt_loop_overflow returned c optarg initial Hin Hc Hlen).
  reflexivity.
Qed.

(** X11: the option -s has no effect: a command line with one more -s
    among its options, and the same program name and path, does what the
    command line without it does. *)
Theorem silent_option_changes_nothing (argv argv' : list bytes)
    (before after : list (ascii * bytes)) (optarg : bytes) (optind optind' : Z) :
  getopt argv = (before ++ after, optind) ->
  getopt argv' = (before ++ ("s"%char, optarg) :: after, optind') ->
  (optind' + 1 =? Z.of_nat (length argv'))
  = (optind + 1 =? Z.of_nat (length argv)) ->
  index argv' 0 = index argv 0 ->
  index argv' optind' = index argv optind ->
  main argv' = main argv.
Proof.
  intros Hg Hg' Hc H0 Hp. unfold Driver.main. rewrite Hg, Hg'.
  rewrite !getopt_loop_app.
  destruct (getopt_loop before initial) as [o1| |]; cbn [bind]; try reflexivity.
  cbn [getopt_loop].
  change (switch "s" optarg o1) with (Done (silent_set o1)). cbn [bind].
  rewrite getopt_loop_silent_set.
  destruct (getopt_loop after o1) as [o| |]; cbn [bind]; try reflexivity.
  unfold Driver.run, silent_set.
  cbn [invalidOption alignmentFormat mode kArg numRepeats].
  rewrite Hc, H0, Hp. reflexivity.
Qed.

Lemma released_app (a b : list event) :
  released a -> released b -> released (a ++ b).
Proof.
  revert b. induction a as [a IH] using (induction_ltof1 _ (@length event)).
  intros b Ha Hb. destruct a as [|e a]; [exact Hb|].
  destruct e; cbn [CommandLine.released] in Ha; try contradiction.
  - destruct a as [|e' a]; [contradiction|].
    destruct e'; try contradiction. destruct Ha as [Hr Ha].
    cbn [app CommandLine.released]. split; [exact Hr|].
    apply IH; auto. unfold ltof. cbn. lia.
  - cbn [app CommandLine.released]. apply IH; auto. unfold ltof. cbn. lia.
Qed.

Lemma for_rep_released (fuel : nat) :
  forall rep n q ql t tl k m a calls,
    for_rep fuel rep n q ql t tl k m a = Done calls -> released calls.
Proof.
  induction fuel as [|fuel IH]; intros rep n q ql t tl k m a calls E;
    cbn [Driver.for_rep] in E; destruct (rep <? n).
  - discriminate.
  - injection E as <-. exact I.
  - destruct (int_sub ql 1) as [ql'| |]; cbn [bind] in E; try discriminate.
    destruct (int_sub tl 1) as [tl'| |]; cbn [bind] in E; try discriminate.
    destruct (int_add rep 1) as [rep'| |]; cbn [bind] in E; try discriminate.
    destruct (for_rep fuel rep' n q ql t tl k m a) as [rest| |] eqn:E';
      cbn [bind] in E; try discriminate.
    injection E as <-. cbn [CommandLine.released]. split; [reflexivity|].
    exact (IH _ _ _ _ _ _ _ _ _ _ E').
  - injection E as <-. exact I.
Qed.

Lemma while_read_input_released (fuel : nat) :
  forall file n k m a events,
    while_read_input fuel file n k m a = Done events -> released events.
Proof.
  induction fuel as [|fuel IH]; intros file n k m a events E;
    cbn [Driver.while_read_input] in E;
    destruct (read_input file) as [[[p|] f']| |]; cbn [bind] in E;
    try discriminate; try (injection E as <-; exact I).
  destruct (for_rep (Z.to_nat n) 0 n (line1 p) (line1_length p) (line2 p)
              (line2_length p) k m a) as [calls| |] eqn:Ec;
    cbn [bind] in E; try discriminate.
  destruct (while_read_input fuel (Some f') n k m a) as [rest| |] eqn:Er;
    cbn [bind] in E; try discriminate.
  injection E as <-.
  apply released_app; [exact (for_rep_released _ _ _ _ _ _ _ _ _ _ _ Ec)|].
  cbn [app CommandLine.released]. exact (IH _ _ _ _ _ _ Er).
Qed.


End Engine.

(** *** Examples *)

Import Examples.

Lemma last_option_wins_witness :
  exists o,
    getopt_loop
      [("m"%char, str "HW"); ("k"%char, str "3"); ("m"%char, str "SHW")]
      initial
    = Done o
    /\ mode o = str "SHW".
Proof.
  eexists.
  refine ((fun E => conj E (proj1 (last_option_wins _ _ E))) _).
  reflexivity.
Defined.

Lemma task_of_flags_witness :
  exists o,
    getopt_loop [("p"%char, []); ("l"%char, [])] initial = Done o
    /\ alignTask_of o = EDLIB_TASK_PATH.
Proof.
  eexists.
  refine ((fun E => conj E (task_of_flags _ _ E)) _).
  reflexivity.
Defined.

Lemma long_option_argument_overflows_witness :
  aligner files
    [str "aligner"; str "-l"; str "-f"; str "0123456789abcdef"; str "-p";
     pairs_txt]
  = Undefined.
Proof.
  apply (long_option_argument_overflows config unit new_config align
           Getopt.getopt files 0 0
           [str "aligner"; str "-l"; str "-f"; str "0123456789abcdef";
            str "-p"; pairs_txt]
           [("l"%char, []); ("f"%char, str "0123456789abcdef"); ("p"%char, [])]
           5 "f"%char (str "0123456789abcdef") eq_refl).
  - right. left. reflexivity.
  - right. reflexivity.
  - cbn. lia.
Defined.

Lemma silent_option_changes_nothing_witness :
  aligner files [str "aligner"; str "-s"; pairs_txt]
  = aligner files [str "aligner"; pairs_txt].
Proof.
  exact (silent_option_changes_nothing config unit new_config align
           Getopt.getopt files 0 0
           [str "aligner"; pairs_txt] [str "aligner"; str "-s"; pairs_txt]
           [] [] [] 1 2 eq_refl eq_refl eq_refl eq_refl eq_refl).
Defined.


End DriverProperties.

(** * More properties of the renderer *)

Module RenderProperties.
Import Edlib Stdio Render IntFacts RenderFacts Ranges.

Lemma spans_length (gap : Z) (ws : list (list Z)) (cursor : Z) :
  length (spans gap ws cursor) = length ws.
Proof.
  revert cursor. induction ws as [|w ws IH]; intros cursor; [reflexivity|].
  cbn [spans length]. rewrite IH. reflexivity.
Qed.

Lemma spans_last (gap : Z) (ws : list (list Z)) :
  forall cursor,
    ws <> [] ->
    exists front lo,
      spans gap ws cursor
      = front ++ [(lo, cursor + count gap (concat ws))].
Proof.
  induction ws as [|w ws IH]; intros cursor Hne; [contradiction|].
  cbn [spans concat]. rewrite count_app. destruct ws as [|w' ws].
  - exists [], (printed_lower gap w cursor). cbn [spans concat app].
    unfold printed_upper, count at 2. cbn. rewrite Z.add_0_r. reflexivity.
  - destruct (IH (cursor + count gap w)) as [front [lo E]]; [discriminate|].
    rewrite E. exists ((printed_lower gap w cursor, printed_upper gap w cursor) :: front), lo.
    cbn [app]. rewrite Z.add_assoc. reflexivity.
Qed.

Lemma spans_tile (gap : Z) (ws : list (list Z)) :
  forall cursor,
    -1 <= cursor ->
    Forall (starts_with_symbol gap) ws ->
    tiles (cursor + 1) (spans gap ws cursor)
      (cursor + count gap (concat ws) + 1).
Proof.
  induction ws as [|w ws IH]; intros cursor Hc Hs.
  - cbn. unfold count. cbn. lia.
  - inversion Hs as [|? ? Hw Hs']; subst.
    destruct w as [|op w]; [contradiction|]. cbn [starts_with_symbol] in Hw.
    cbn [spans concat tiles]. rewrite printed_lower_cases, Hw by assumption.
    unfold printed_upper. rewrite count_app.
    pose proof (count_cons gap op w) as Hcons. rewrite Hw in Hcons.
    pose proof (count_nonneg gap w) as Hnn.
    split; [reflexivity|]. split; [lia|].
    replace (cursor + (count gap (op :: w) + count gap (concat ws)) + 1)
      with (cursor + count gap (op :: w) + count gap (concat ws) + 1) by lia.
    apply IH; [lia|assumption].
Qed.

Lemma windows_length (fuel : nat) :
  forall script,
    (length script <= fuel)%nat ->
    length (windows fuel script) = ((length script + 49) / 50)%nat.
Proof.
  induction fuel as [|fuel IH]; intros script Hfuel.
  - destruct script; [reflexivity|cbn in Hfuel; lia].
  - destruct script as [|op script]; [reflexivity|].
    cbn [length] in Hfuel.
    cbn [windows length]. rewrite IH by (rewrite length_skipn; cbn [length]; lia).
    rewrite length_skipn. cbn [length].
    destruct (Nat.le_gt_cases 50 (S (length script))) as [H|H].
    + replace (S (length script) + 49)%nat
        with ((S (length script) - 50 + 49) + 1 * 50)%nat by lia.
      rewrite Nat.div_add by lia. lia.
    + replace (S (length script) - 50)%nat with 0%nat by lia.
      rewrite (Nat.div_small (0 + 49) 50) by lia.
      assert (E : ((S (length script) + 49) / 50 = 1)%nat).
      { symmetry. apply Nat.div_unique with (r := length script); lia. }
      lia.
Qed.

Section PrintAlignment.

Variables EDLIB_EDOP_MATCH EDLIB_EDOP_INSERT EDLIB_EDOP_DELETE : Z.
Variables query target : bytes.
Variable alignment : list Z.
Variables alignmentLength position : Z.

Local Abbreviation printAlignment :=
  (Render.printAlignment EDLIB_EDOP_MATCH EDLIB_EDOP_INSERT EDLIB_EDOP_DELETE
     query target alignment alignmentLength position).
Local Abbreviation start_cursor :=
  (Render.start_cursor EDLIB_EDOP_INSERT alignment position).

(** X13: for an alignment of length 0 or less [printAlignment] prints
    nothing, in every mode and whatever the buffers hold. *)
Theorem empty_alignment_prints_nothing (modeCode : EdlibAlignMode) :
  alignmentLength <= 0 ->
  printAlignment modeCode = Done [].
Proof.
  intros H. unfold Render.printAlignment, target_offset.
  assert (E : (0 <? alignmentLength) = false) by (apply Z.ltb_ge; exact H).
  assert (Hhw : forall fuel tIdx,
             hw_loop EDLIB_EDOP_INSERT alignment alignmentLength fuel 0 tIdx
             = Done tIdx).
  { intros fuel tIdx. destruct fuel; cbn [hw_loop]; rewrite E; reflexivity. }
  assert (Hw : forall fuel tIdx qIdx,
             window_loop EDLIB_EDOP_MATCH EDLIB_EDOP_INSERT EDLIB_EDOP_DELETE
               query target alignment alignmentLength fuel 0 tIdx qIdx
             = Done []).
  { intros fuel tIdx qIdx. destruct fuel; cbn [window_loop]; rewrite E;
      reflexivity. }
  destruct (mode_eqb modeCode EDLIB_MODE_HW).
  - rewrite Hhw. cbn [bind]. apply Hw.
  - cbn [bind]. apply Hw.
Qed.

(** X14: one target range and one query range are printed for every 50
    operations of the alignment, and one more of each for what is left
    after them. *)
Theorem one_range_pair_per_window (modeCode : EdlibAlignMode) :
  alignmentLength = Z.of_nat (length alignment) ->
  alignmentLength + 50 <= INT_MAX ->
  in_int position = true ->
  in_bounds EDLIB_EDOP_INSERT target alignment (start_cursor modeCode) ->
  in_bounds EDLIB_EDOP_DELETE query alignment (-1) ->
  exists calls,
    printAlignment modeCode = Done calls
    /\ length (ranges target_format calls)
       = ((length alignment + 49) / 50)%nat
    /\ length (ranges query_format calls)
       = ((length alignment + 49) / 50)%nat.
Proof.
  intros Hlen Hmax Hpos Ht Hq. eexists. split.
  - apply printAlignment_calls; assumption.
  - destruct (ranges_layout_calls EDLIB_EDOP_MATCH EDLIB_EDOP_INSERT
                EDLIB_EDOP_DELETE query target
                (windows (length alignment) alignment)
                (start_cursor modeCode) (-1)) as [-> ->].
    rewrite !spans_length.
    split; apply windows_length; apply Nat.le_refl.
Qed.

(** X15: the last target range ends at the end position in HW mode and at
    the number of target symbols of the alignment minus 1 otherwise; the
    last query range ends at the number of query symbols minus 1. *)
Theorem last_ranges_end_at_the_last_symbols (modeCode : EdlibAlignMode) :
  alignmentLength = Z.of_nat (length alignment) ->
  alignmentLength + 50 <= INT_MAX ->
  in_int position = true ->
  in_bounds EDLIB_EDOP_INSERT target alignment (start_cursor modeCode) ->
  in_bounds EDLIB_EDOP_DELETE query alignment (-1) ->
  alignment <> [] ->
  exists calls tfront tlo qfront qlo,
    printAlignment modeCode = Done calls
    /\ ranges target_format calls
       = tfront ++ [(tlo, if mode_eqb modeCode EDLIB_MODE_HW then position
                          else count EDLIB_EDOP_INSERT alignment - 1)]
    /\ ranges query_format calls
       = qfront ++ [(qlo, count EDLIB_EDOP_DELETE alignment - 1)].
Proof.
  intros Hlen Hmax Hpos Ht Hq Hne.
  destruct (windows_cut (length alignment) alignment (Nat.le_refl _))
    as [Hcat _].
  assert (Hws : windows (length alignment) alignment <> []).
  { intros E. rewrite E in Hcat. cbn in Hcat. congruence. }
  destruct (spans_last EDLIB_EDOP_INSERT _ (start_cursor modeCode) Hws)
    as [tfront [tlo Et]].
  destruct (spans_last EDLIB_EDOP_DELETE _ (-1) Hws) as [qfront [qlo Eq]].
  rewrite Hcat in Et, Eq.
  destruct (ranges_layout_calls EDLIB_EDOP_MATCH EDLIB_EDOP_INSERT
              EDLIB_EDOP_DELETE query target
              (windows (length alignment) alignment)
              (start_cursor modeCode) (-1)) as [Rt Rq].
  eexists. exists tfront, tlo, qfront, qlo. split; [|split].
  - apply printAlignment_calls; assumption.
  - rewrite Rt, Et. do 3 f_equal. unfold Render.start_cursor.
    destruct (mode_eqb modeCode EDLIB_MODE_HW); lia.
  - rewrite Rq, Eq. do 3 f_equal. lia.
Qed.

(** X16: when every window starts with an operation that takes a target
    symbol, the target ranges follow one another without gap or overlap
    from the first symbol of the alignment to its last; the same holds
    for the query ranges. *)
Theorem ranges_tile_the_sequences (modeCode : EdlibAlignMode) :
  alignmentLength = Z.of_nat (length alignment) ->
  alignmentLength + 50 <= INT_MAX ->
  in_int position = true ->
  in_bounds EDLIB_EDOP_INSERT target alignment (start_cursor modeCode) ->
  in_bounds EDLIB_EDOP_DELETE query alignment (-1) ->
  exists calls,
    printAlignment modeCode = Done calls
    /\ (Forall (starts_with_symbol EDLIB_EDOP_INSERT)
          (windows (length alignment) alignment) ->
        tiles (start_cursor modeCode + 1) (ranges target_format calls)
          (start_cursor modeCode + count EDLIB_EDOP_INSERT alignment + 1))
    /\ (Forall (starts_with_symbol EDLIB_EDOP_DELETE)
          (windows (length alignment) alignment) ->
        tiles 0 (ranges query_format calls)
          (count EDLIB_EDOP_DELETE alignment)).
Proof.
  intros Hlen Hmax Hpos Ht Hq.
  destruct (windows_cut (length alignment) alignment (Nat.le_refl _))
    as [Hcat _].
  destruct (ranges_layout_calls EDLIB_EDOP_MATCH EDLIB_EDOP_INSERT
              EDLIB_EDOP_DELETE query target
              (windows (length alignment) alignment)
              (start_cursor modeCode) (-1)) as [Rt Rq].
  eexists. split; [|split].
  - apply printAlignment_calls; assumption.
  - intros Hs. rewrite Rt.
    pose proof (spans_tile EDLIB_EDOP_INSERT _ (start_cursor modeCode)
                  (proj1 Ht) Hs) as T.
    rewrite Hcat in T. exact T.
  - intros Hs. rewrite Rq.
    pose proof (spans_tile EDLIB_EDOP_DELETE _ (-1) (Z.le_refl _) Hs) as T.
    rewrite Hcat in T.
    replace (-1 + count EDLIB_EDOP_DELETE alignment + 1)
      with (count EDLIB_EDOP_DELETE alignment) in T by lia.
    exact T.
Qed.

(** X17: in HW mode, when the alignment starts with an operation that
    takes a target symbol and the end position is less than the number of
    target symbols of the alignment minus 1, or the first symbol is
    beyond the target, the first read of the target is outside of the
    buffer. *)
Theorem hw_position_out_of_target (op : Z) (rest : list Z) :
  alignment = op :: rest ->
  alignmentLength = Z.of_nat (length alignment) ->
  alignmentLength <= INT_MAX ->
  in_int position = true ->
  INT_MIN <= start_cursor EDLIB_MODE_HW ->
  takes EDLIB_EDOP_INSERT op = true ->
  start_cursor EDLIB_MODE_HW < -1
  \/ Z.of_nat (length target) <= start_cursor EDLIB_MODE_HW + 1 ->
  printAlignment EDLIB_MODE_HW = Undefined.
Proof.
  intros Ha Hlen Hmax Hpos Hlo Hop Hout.
  unfold Render.printAlignment.
  rewrite (target_offset_done EDLIB_EDOP_INSERT alignment alignmentLength
             position EDLIB_MODE_HW Hlen Hmax Hpos Hlo).
  cbn [bind].
  assert (Hpos' : 0 < alignmentLength).
  { rewrite Hlen, Ha. cbn [length]. lia. }
  destruct (Z.to_nat alignmentLength) as [|fuel] eqn:Ef; [lia|].
  cbn [window_loop].
  destruct (Z.ltb_spec 0 alignmentLength) as [_|]; [|lia].
  cbn [target_loop].
  rewrite int_add_done by (unfold INT_MIN, INT_MAX; lia). cbn [bind].
  destruct (Z.ltb_spec 0 (0 + 50)) as [_|]; [|lia].
  destruct (Z.ltb_spec 0 alignmentLength) as [_|]; [|lia].
  cbn [andb].
  assert (Ei : index alignment 0 = Done op) by (rewrite Ha; reflexivity).
  rewrite Ei. cbn [bind].
  unfold takes in Hop. apply negb_true_iff in Hop. rewrite Hop.
  unfold int_add.
  destruct (in_int (start_cursor EDLIB_MODE_HW + 1)); [|reflexivity].
  cbn [bind].
  assert (Et : index target (start_cursor EDLIB_MODE_HW + 1) = Undefined).
  { unfold index.
    destruct (Z.ltb_spec (start_cursor EDLIB_MODE_HW + 1) 0) as [|Hge];
      [reflexivity|].
    destruct (nth_error target (Z.to_nat (start_cursor EDLIB_MODE_HW + 1)))
      eqn:En; [|reflexivity].
    assert (Hlt : (Z.to_nat (start_cursor EDLIB_MODE_HW + 1) < length target)%nat).
    { apply nth_error_Some. rewrite En. discriminate. }
    lia. }
  rewrite Et. reflexivity.
Qed.

End PrintAlignment.

(** *** Examples *)

Import Examples.

Lemma empty_alignment_prints_nothing_witness :
  Render.printAlignment MATCH INSERT DELETE (str "ACGT") (str "TTAGATT")
    [] 0 5 EDLIB_MODE_HW
  = Done [].
Proof.
  apply (empty_alignment_prints_nothing MATCH INSERT DELETE (str "ACGT")
           (str "TTAGATT") [] 0 5 EDLIB_MODE_HW).
  lia.
Defined.

Lemma one_range_pair_per_window_witness :
  exists calls,
    Render.printAlignment MATCH INSERT DELETE
      (repeat "A"%char 51) (repeat "A"%char 51) (repeat MATCH 51) 51 50
      EDLIB_MODE_NW
    = Done calls
    /\ length (ranges target_format calls) = 2%nat
    /\ length (ranges query_format calls) = 2%nat.
Proof.
  apply (one_range_pair_per_window MATCH INSERT DELETE
           (repeat "A"%char 51) (repeat "A"%char 51) (repeat MATCH 51) 51 50
           EDLIB_MODE_NW).
  - reflexivity.
  - unfold INT_MAX. lia.
  - reflexivity.
  - repeat split; vm_compute; (reflexivity || discriminate).
  - repeat split; vm_compute; (reflexivity || discriminate).
Defined.

Lemma last_ranges_end_at_the_last_symbols_witness :
  exists calls tfront tlo qfront qlo,
    Render.printAlignment MATCH INSERT DELETE (str "ACGT") (str "TTAGATT")
      [MATCH; INSERT; MATCH; MISMATCH; DELETE] 5 5 EDLIB_MODE_HW
    = Done calls
    /\ ranges target_format calls = tfront ++ [(tlo, 5)]
    /\ ranges query_format calls = qfront ++ [(qlo, 3)].
Proof.
  apply (last_ranges_end_at_the_last_symbols MATCH INSERT DELETE (str "ACGT")
           (str "TTAGATT") [MATCH; INSERT; MATCH; MISMATCH; DELETE] 5 5
           EDLIB_MODE_HW).
  - reflexivity.
  - unfold INT_MAX. lia.
  - reflexivity.
  - repeat split; vm_compute; (reflexivity || discriminate).
  - repeat split; vm_compute; (reflexivity || discriminate).
  - discriminate.
Defined.

Lemma ranges_tile_the_sequences_witness :
  exists calls,
    Render.printAlignment MATCH INSERT DELETE (str "ACGT") (str "TTAGATT")
      [MATCH; INSERT; MATCH; MISMATCH; DELETE] 5 5 EDLIB_MODE_HW
    = Done calls
    /\ tiles 2 (ranges target_format calls) 6
    /\ tiles 0 (ranges query_format calls) 4.
Proof.
  destruct (ranges_tile_the_sequences MATCH INSERT DELETE (str "ACGT")
              (str "TTAGATT") [MATCH; INSERT; MATCH; MISMATCH; DELETE] 5 5
              EDLIB_MODE_HW) as [calls [H1 [H2 H3]]].
  - reflexivity.
  - unfold INT_MAX. lia.
  - reflexivity.
  - repeat split; vm_compute; (reflexivity || discriminate).
  - repeat split; vm_compute; (reflexivity || discriminate).
  - exists calls. split; [exact H1|]. split.
    + apply H2. constructor; [reflexivity|constructor].
    + apply H3. constructor; [reflexivity|constructor].
Defined.

Lemma hw_position_out_of_target_witness :
  Render.printAlignment MATCH INSERT DELETE (str "ACG") (str "ACGT")
    [MATCH; MATCH; MATCH] 3 1 EDLIB_MODE_HW
  = Undefined.
Proof.
  apply (hw_position_out_of_target MATCH INSERT DELETE (str "ACG") (str "ACGT")
           [MATCH; MATCH; MATCH] 3 1 MATCH [MATCH; MATCH]).
  - reflexivity.
  - reflexivity.
  - unfold INT_MAX. lia.
  - reflexivity.
  - vm_compute. discriminate.
  - reflexivity.
  - left. vm_compute. reflexivity.
Defined.

End RenderProperties.

(** * Properties of printSeq *)

Module DebugFacts.
Import Stdio Debug IntFacts ReaderFacts RenderFacts.

Lemma digits_no_line_feed (d : Decimal.uint) :
  ~ In LF (str (NilEmpty.string_of_uint d)).
Proof.
  unfold str.
  induction d as [|d IH|d IH|d IH|d IH|d IH|d IH|d IH|d IH|d IH|d IH];
    cbn [NilEmpty.string_of_uint list_ascii_of_string In];
    [intros []|..]; intros [H|H]; solve [discriminate H | exact (IH H)].
Qed.

Lemma uint_no_line_feed (d : Decimal.uint) :
  ~ In LF (str (NilZero.string_of_uint d)).
Proof.
  destruct d; try apply digits_no_line_feed.
  cbn. intros [H|[]]. discriminate H.
Qed.

Lemma decimal_no_line_feed (z : Z) : ~ In LF (decimal z).
Proof.
  unfold decimal, NilZero.string_of_int.
  destruct (Z.to_int z) as [d|d].
  - apply uint_no_line_feed.
  - cbn [str list_ascii_of_string In]. intros [H|H]; [discriminate H|].
    exact (uint_no_line_feed d H).
Qed.

Section PrintSeq.

Variable int_of_char : ascii -> Z.

Lemma numbers_no_line_feed (seq : bytes) : ~ In LF (numbers int_of_char seq).
Proof.
  unfold numbers. induction seq as [|c seq IH]; cbn [map concat].
  - intros [].
  - intros H. apply in_app_or in H. destruct H as [H|H]; [|exact (IH H)].
    apply in_app_or in H. destruct H as [H|H].
    + exact (decimal_no_line_feed _ H).
    + cbn in H. destruct H as [H|[]]. discriminate H.
Qed.

Lemma for_seq_calls (seq : bytes) :
  Z.of_nat (length seq) <= INT_MAX ->
  forall suf pre fuel,
    seq = pre ++ suf ->
    (length suf <= fuel)%nat ->
    for_seq int_of_char fuel seq (Z.of_nat (length pre))
    = Done (map (fun c => Printf (str "%d ") [ArgInt (int_of_char c)]) suf).
Proof.
  intros Hmax.
  assert (Hcast : to_int (Z.of_nat (length seq)) = Z.of_nat (length seq)).
  { unfold to_int. unfold INT_MAX in Hmax.
    rewrite Z.mod_small by lia. lia. }
  induction suf as [|c suf IH]; intros pre fuel Hseq Hfuel.
  - assert (E : length seq = length pre)
      by (rewrite Hseq, app_nil_r; reflexivity).
    destruct fuel; cbn [for_seq]; rewrite Hcast, E, Z.ltb_irrefl; reflexivity.
  - destruct fuel as [|fuel]; [cbn in Hfuel; lia|].
    assert (Hl : length seq = (length pre + S (length suf))%nat)
      by (rewrite Hseq, length_app; reflexivity).
    cbn [for_seq]. rewrite Hcast.
    destruct (Z.ltb_spec (Z.of_nat (length pre)) (Z.of_nat (length seq)));
      [|lia].
    rewrite Hseq at 1. rewrite index_app_cons. cbn [bind].
    rewrite int_add_done by (unfold INT_MIN, INT_MAX in *; lia). cbn [bind].
    replace (Z.of_nat (length pre) + 1)
      with (Z.of_nat (length (pre ++ [c]))) by (rewrite length_app; cbn; lia).
    rewrite (IH (pre ++ [c]) fuel).
    + reflexivity.
    + rewrite <- app_assoc. exact Hseq.
    + cbn [length] in Hfuel. lia.
Qed.

Lemma text_numbers (seq : bytes) :
  text (map (fun c => Printf (str "%d ") [ArgInt (int_of_char c)]) seq)
  = Some (numbers int_of_char seq).
Proof.
  unfold numbers. induction seq as [|c seq IH]; [reflexivity|].
  cbn [map text concat]. rewrite IH. reflexivity.
Qed.

(** X18: [printSeq] writes one line: the value of every element in
    decimal, in order, each followed by a space, and one line feed at the
    end. *)
Theorem printSeq_one_line (seq : bytes) :
  Z.of_nat (length seq) <= INT_MAX ->
  exists calls,
    printSeq int_of_char seq = Done calls
    /\ text calls = Some (numbers int_of_char seq ++ [LF])
    /\ ~ In LF (numbers int_of_char seq).
Proof.
  intros Hmax. unfold printSeq.
  change 0 with (Z.of_nat (length (@nil ascii))).
  rewrite (for_seq_calls seq Hmax seq [] (length seq) eq_refl (Nat.le_refl _)).
  cbn [bind]. eexists. split; [reflexivity|]. split.
  - rewrite text_app, text_numbers. reflexivity.
  - apply numbers_no_line_feed.
Qed.

End PrintSeq.

(** *** Examples *)

Lemma printSeq_one_line_witness :
  exists calls,
    printSeq (fun c => Z.of_nat (nat_of_ascii c)) (str "AC") = Done calls
    /\ text calls = Some (str "65 67 " ++ [LF]).
Proof.
  destruct (printSeq_one_line (fun c => Z.of_nat (nat_of_ascii c)) (str "AC"))
    as [calls [H1 [H2 _]]].
  - unfold INT_MAX. cbn. lia.
  - exists calls. split; [exact H1|exact H2].
Defined.

End DebugFacts.
